(** * Ozon price parser: batch coordinator, fetch worker and payload extractor

    A shallow embedding of [src/parser/ozon_parser.py] and the properties of
    its work distribution, retry loop and result merge.

    Conventions of the embedding:
    - Python integers are [Z], Python lists are [list], the dictionary of the
      merge is a [gmap Z ArticleResult];
    - code that may raise returns a [Res]; code that talks to the browser
      session threads the worker object through the monad [M];
    - the settings of [config.settings] and the collaborators of
      [driver_manager], [utils.helpers] and [json] are the fields of the
      classes [Settings], [Helpers] and [Selenium];
    - [extract_price_info] is embedded twice: as the function of the payload
      that [parse_single_article] uses, and in the module [Extractor] with
      its logger calls and with helpers that may keep state. *)

From Stdlib Require Import ZArith String QArith Qcanon.
From stdpp Require Import base list gmap strings.

Open Scope Z_scope.

(** ** The Python runtime pieces the program relies on *)

Module Py.

(** An exception: its class name and what [str(e)] gives. *)
Record Exn : Type := mkExn { exn_class : string; exn_str : string }.

Inductive Res (A : Type) : Type :=
| Ok (a : A)
| Raise (e : Exn).
Arguments Ok {A} a.
Arguments Raise {A} e.

Definition is_ok {A} (r : Res A) : bool :=
  match r with Ok _ => true | Raise _ => false end.

#[global] Instance Res_ret : MRet Res := @Ok.
#[global] Instance Res_bind : MBind Res := fun A B k r =>
  match r with
  | Ok a => k a
  | Raise e => Raise e
  end.

#[global] Instance Ok_inj {A} : Inj (=) (=) (@Ok A).
Proof. by intros a b [= ->]. Qed.

Definition ValueError (msg : string) : Exn := mkExn "ValueError" msg.
Definition RuntimeError (msg : string) : Exn := mkExn "RuntimeError" msg.

(** [len(l)] *)
Definition len {A} (l : list A) : Z := Z.of_nat (length l).

(** Number of elements of [range(start, stop, step)] for [step <> 0]. *)
Definition range_len (start stop step : Z) : Z :=
  if 0 <? step
  then (if start <? stop then (stop - start - 1) / step + 1 else 0)
  else (if stop <? start then (start - stop - 1) / (- step) + 1 else 0).

(** [range(start, stop, step)]; a zero step is a [ValueError]. *)
Definition range (start stop step : Z) : Res (list Z) :=
  if step =? 0 then Raise (ValueError "range() arg 3 must not be zero")
  else Ok (map (fun k : nat => start + Z.of_nat k * step)
               (seq 0 (Z.to_nat (range_len start stop step)))).

(** A slice bound is counted from the end when negative, then clamped. *)
Definition clamp_index (n i : Z) : Z :=
  if i <? 0 then Z.max 0 (i + n) else Z.min i n.

(** [l[i:j]] *)
Definition slice {A} (l : list A) (i j : Z) : list A :=
  let lo := clamp_index (len l) i in
  let hi := clamp_index (len l) j in
  take (Z.to_nat (hi - lo)) (drop (Z.to_nat lo) l).

(** Truthiness of an optional string: [None] and [""] are falsy. *)
Definition truthy_str (s : option string) : bool :=
  match s with
  | None => false
  | Some s => negb (String.eqb s "")
  end.

(** [time.sleep(secs)]: a negative length is a [ValueError]. *)
Definition sleep (secs : Z) : Res unit :=
  if secs <? 0 then Raise (ValueError "sleep length must be non-negative")
  else Ok tt.

(** [json.loads] values. An object is held as its items, keys distinct, in
    document order; finite floats are held as rationals. *)
#[warnings="-register-all"]
Inductive json : Type :=
| JNull
| JBool (b : bool)
| JInt (n : Z)
| JFloat (x : Qc)
| JStr (s : string)
| JArr (items : list json)
| JObj (items : list (string * json)).

(** [bool(v)] *)
Definition truthy (v : json) : bool :=
  match v with
  | JNull => false
  | JBool b => b
  | JInt n => negb (n =? 0)
  | JFloat x => if decide (x = 0%Qc) then false else true
  | JStr s => negb (String.eqb s "")
  | JArr items => match items with [] => false | _ => true end
  | JObj items => match items with [] => false | _ => true end
  end.

Definition AttributeError (msg : string) : Exn := mkExn "AttributeError" msg.
Definition TypeError (msg : string) : Exn := mkExn "TypeError" msg.

(** [v.get(key, default)]: only a dict has the method. *)
Definition get (v : json) (key : string) (default : json) : Res json :=
  match v with
  | JObj items =>
      Ok (from_option snd default
            (find (fun kv => String.eqb (fst kv) key) items))
  | _ => Raise (AttributeError "object has no attribute 'get'")
  end.

(** [len(v)] on a value of unknown type. *)
Definition len_of (v : json) : Res Z :=
  match v with
  | JStr s => Ok (Z.of_nat (String.length s))
  | JArr items => Ok (len items)
  | JObj items => Ok (len items)
  | _ => Raise (TypeError "object has no len()")
  end.

End Py.

Import Py.

(** ** Data model *)

(** The numeric fields of a [PriceInfo]; [models.schemas] fixes them. *)
Class Schemas : Type := { PriceFields : Type }.

Section DataModel.
Context `{Schemas}.

(** Modelled from the spec: [models.schemas.PriceInfo], the parsed price
    fields with an optional product title that is attached afterwards. As an
    object it is truthy: [if price_info:] tests it against [None]. *)
Record PriceInfo : Type := mkPriceInfo {
  price_fields : PriceFields;
  title : option string
}.

(** Modelled from the spec: [models.schemas.ArticleResult]; [price_info] and
    [error] are optional and absent unless the constructor call names them. *)
Record ArticleResult : Type := mkArticleResult {
  article : Z;
  success : bool;
  price_info : option PriceInfo;
  error : option string
}.

End DataModel.

(** ** Settings and collaborators *)

(** [config.settings.settings] *)
Class Settings : Type := {
  MAX_ARTICLES_PER_WORKER : Z;
  MAX_WORKERS : Z;
  MAX_RETRIES : Z;
  RETRY_DELAY : Z
}.

(** [utils.helpers] and [json.loads]: functions of their arguments alone,
    each of which may raise. *)
Class Helpers `{Schemas} : Type := {
  build_ozon_api_url : Z -> Res string;
  is_valid_json_response : string -> Res bool;
  json_loads : string -> Res json;
  find_web_price_property : json -> Res json;
  parse_price_data : json -> Res (option PriceInfo);
  find_product_title : json -> Res (option string)
}.

(** [driver_manager.selenium_manager.SeleniumManager] and the driver it sets
    up. [World] is the state of one browser session and of the site behind
    it; every call may change it and may raise. [close_manager] is the
    manager's [close()]; [current_url], [page_title] and [page_source] are
    the driver's properties [current_url], [title] and [page_source]. What is
    raised is an [Exception]: interrupts and exits are left out. *)
Class Selenium : Type := {
  World : Type;
  Driver : Type;
  setup_driver : World -> Res (option Driver) * World;
  navigate_to_url : string -> World -> Res bool * World;
  debug_page_content : World -> Res unit * World;
  wait_for_json_response : World -> Res (option string) * World;
  close_manager : World -> Res unit * World;
  current_url : Driver -> World -> Res string * World;
  page_title : Driver -> World -> Res string * World;
  page_source : Driver -> World -> Res string * World
}.

(** ** OzonWorker *)

Module OzonWorker.

Section Self.
Context `{Selenium}.

(** The worker object. [attempts_logged] keeps, oldest first, the
    [(article, attempt)] of every "Parsing article ..., attempt ..." line the
    worker wrote to the logger; the other log lines are not kept. *)
Record t : Type := mk {
  selenium_manager : World;
  driver : option Driver;
  attempts_logged : list (Z * Z)
}.

(** [OzonWorker()] on the session [w] that its [SeleniumManager()] opens. *)
Definition new (w : World) : t := mk w None [].

(** A method body: it reads and updates [self], and returns or raises. *)
Definition M (A : Type) : Type := t -> Res A * t.

#[global] Instance M_ret : MRet M := fun A a self => (Ok a, self).

#[global] Instance M_bind : MBind M := fun A B k m self =>
  match m self with
  | (Ok a, self') => k a self'
  | (Raise e, self') => (Raise e, self')
  end.

(** A call that can raise and does not touch the worker. *)
Definition lift {A} (r : Res A) : M A := fun self => (r, self).

(** [try: body except Exception as e: handler(e)] *)
Definition try_except {A} (body : M A) (handler : Exn -> M A) : M A :=
  fun self =>
    match body self with
    | (Ok a, self') => (Ok a, self')
    | (Raise e, self') => handler e self'
    end.

(** [try: body finally: cleanup]; an exception of [cleanup] replaces the
    outcome of [body]. *)
Definition try_finally {A} (body : M A) (cleanup : M unit) : M A :=
  fun self =>
    match body self with
    | (r, self') =>
        match cleanup self' with
        | (Ok _, self'') => (r, self'')
        | (Raise e, self'') => (Raise e, self'')
        end
    end.

(** A call on [self.selenium_manager] or on the driver of its session. *)
Definition on_session {A} (call : World -> Res A * World) : M A :=
  fun self =>
    match call (selenium_manager self) with
    | (r, w) => (r, mk w (driver self) (attempts_logged self))
    end.

Definition get_driver : M (option Driver) :=
  fun self => (Ok (driver self), self).

Definition set_driver (d : option Driver) : M unit :=
  fun self => (Ok tt, mk (selenium_manager self) d (attempts_logged self)).

(** [logger.info(f"Parsing article {article}, attempt {attempt + 1}")] *)
Definition log_attempt (article attempt : Z) : M unit :=
  fun self =>
    (Ok tt, mk (selenium_manager self) (driver self)
               (attempts_logged self ++ [(article, attempt)])).

End Self.

Section Worker.
Context `{Schemas} `{!Settings} `{!Helpers} `{!Selenium}.

(** *** extract_price_info *)

(** The body of the [try] of [extract_price_info]. *)
Definition extract_price_info_try (json_content : string)
    : Res (option PriceInfo) :=
  valid ← is_valid_json_response json_content;
  if negb valid then Ok None
  else
    data ← json_loads json_content;
    widget_states ← get data "widgetStates" (JObj []);
    if negb (truthy widget_states) then Ok None
    else
      _ ← len_of widget_states;
      web_price_value ← find_web_price_property widget_states;
      if negb (truthy web_price_value) then Ok None
      else
        price_info ← parse_price_data web_price_value;
        match price_info with
        | Some price_info =>
            title ← find_product_title widget_states;
            if truthy_str title
            then Ok (Some (mkPriceInfo (price_fields price_info) title))
            else Ok (Some price_info)
        | None => Ok None
        end.

(** Both handlers, [json.JSONDecodeError] and [Exception], return [None]. *)
Definition extract_price_info (json_content : string) : option PriceInfo :=
  match extract_price_info_try json_content with
  | Ok result => result
  | Raise e =>
      if String.eqb (exn_class e) "JSONDecodeError" then None else None
  end.

(** The call [self.extract_price_info(page_source)]: the body names
    neither [self] nor the session. *)
Definition self_extract_price_info (json_content : string)
    : M (option PriceInfo) :=
  mret (extract_price_info json_content).

(** *** parse_single_article *)

(** How one pass through the body of the [for] ends. *)
Inductive Step : Type :=
| Continue
| Return (result : ArticleResult).

(** The tail shared by the four failure branches:
    [if attempt < MAX_RETRIES - 1: sleep(RETRY_DELAY); continue]
    [else: return ArticleResult(article=article, success=False, error=msg)]. *)
Definition retry_or_fail (article attempt : Z) (msg : string) : M Step :=
  if attempt <? MAX_RETRIES - 1
  then _ ← lift (sleep RETRY_DELAY); mret Continue
  else mret (Return (mkArticleResult article false None (Some msg))).

(** The reads under [if self.driver:] after a failed navigation. *)
Definition debug_reads : M unit :=
  d ← get_driver;
  match d with
  | Some d =>
      _ ← on_session (current_url d);
      _ ← on_session (page_title d);
      _ ← on_session (page_source d);
      mret tt
  | None => mret tt
  end.

(** The body of the [try] of one attempt. *)
Definition attempt_try (article attempt : Z) : M Step :=
  _ ← log_attempt article (attempt + 1);
  url ← lift (build_ozon_api_url article);
  navigation_success ← on_session (navigate_to_url url);
  if negb navigation_success
  then
    _ ← debug_reads;
    retry_or_fail article attempt "Failed to navigate to URL"
  else
    _ ← on_session debug_page_content;
    page_source ← on_session wait_for_json_response;
    if negb (truthy_str page_source)
    then retry_or_fail article attempt "No JSON response received"
    else
      price_info ← self_extract_price_info (default "" page_source);
      match price_info with
      | Some price_info =>
          mret (Return (mkArticleResult article true (Some price_info) None))
      | None => retry_or_fail article attempt "Failed to extract price info"
      end.

(** One attempt: the [try] with its [except Exception as e] handler. *)
Definition attempt_once (article attempt : Z) : M Step :=
  try_except (attempt_try article attempt)
             (fun e => retry_or_fail article attempt (exn_str e)).

(** How the [for attempt in range(MAX_RETRIES)] loop is left. *)
Inductive LoopExit : Type :=
| Returned (result : ArticleResult)
| Exhausted.

Fixpoint attempt_loop (article : Z) (attempts : list Z) : M LoopExit :=
  match attempts with
  | [] => mret Exhausted
  | attempt :: rest =>
      step ← attempt_once article attempt;
      match step with
      | Return result => mret (Returned result)
      | Continue => attempt_loop article rest
      end
  end.

Definition parse_single_article (article : Z) : M ArticleResult :=
  attempts ← lift (range 0 MAX_RETRIES 1);
  exit ← attempt_loop article attempts;
  match exit with
  | Returned result => mret result
  | Exhausted =>
      mret (mkArticleResult article false None (Some "Max retries exceeded"))
  end.

(** *** initialize, parse_articles, close *)

(** The handler logs the failure and raises it again. *)
Definition initialize : M unit :=
  try_except (d ← on_session setup_driver; set_driver d)
             (fun e => lift (Raise e)).

Fixpoint parse_each (articles : list Z) (results : list ArticleResult)
    : M (list ArticleResult) :=
  match articles with
  | [] => mret results
  | article :: rest =>
      result ← parse_single_article article;
      parse_each rest (results ++ [result])
  end.

Definition parse_articles (articles : list Z) : M (list ArticleResult) :=
  d ← get_driver;
  match d with
  | None => lift (Raise (RuntimeError "Worker not initialized"))
  | Some _ => parse_each articles []
  end.

Definition close : M unit := on_session close_manager.

End Worker.
End OzonWorker.

(** ** extract_price_info with its effects

    [OzonWorker.extract_price_info] above keeps of the method what decides
    its result. Here the method is embedded once more with everything it
    does: every call of the logger, and helpers that, for all that their
    call sites show, may read and change the state of their module. *)

Module Extractor.

Section Effects.
Context `{Schemas} `{!Helpers}.

(** The calls of the logger in [extract_price_info], in the order of the
    source, each with the values its message is formatted from. *)
Inductive LogRecord : Type :=
| InfoExtracting
| WarningInvalidJson
| WarningNoWidgetStates
| InfoFoundWidgetStates (n : Z)
| WarningNoWebPrice
| InfoFoundWebPrice
| InfoFoundTitle (first_50 : string)
| InfoExtracted (price_info : PriceInfo)
| WarningParseFailed
| ErrorJsonDecode (e : Exn)
| DebugJsonPreview (first_500 : string)
| ErrorExtracting (e : Exn).

(** The helpers of [utils.helpers] that [extract_price_info] calls, as
    functions that may read and change [Globals], the state of their module,
    and may raise. *)
Class StatefulHelpers : Type := {
  Globals : Type;
  is_valid_json_response : string -> Globals -> Res bool * Globals;
  find_web_price_property : json -> Globals -> Res json * Globals;
  parse_price_data : json -> Globals -> Res (option PriceInfo) * Globals;
  find_product_title : json -> Globals -> Res (option string) * Globals
}.

Context `{!StatefulHelpers} `{!Selenium}.

(** What a call of the method can reach: the worker it is called on, the
    state of the helpers' module, and the records handed to the logger. *)
Record Process : Type := mkProcess {
  worker : OzonWorker.t;
  globals : Globals;
  logged : list LogRecord
}.

Definition E (A : Type) : Type := Process -> Res A * Process.

#[global] Instance E_ret : MRet E := fun A a p => (Ok a, p).

#[global] Instance E_bind : MBind E := fun A B k m p =>
  match m p with
  | (Ok a, p') => k a p'
  | (Raise e, p') => (Raise e, p')
  end.

(** [logger.info(...)], [logger.warning(...)], ... *)
Definition logger (record : LogRecord) : E unit :=
  fun p => (Ok tt, mkProcess (worker p) (globals p) (logged p ++ [record])).

(** A call of a helper. *)
Definition call {A} (helper : Globals -> Res A * Globals) : E A :=
  fun p =>
    match helper (globals p) with
    | (r, g) => (r, mkProcess (worker p) g (logged p))
    end.

(** A call that touches no state. *)
Definition lift {A} (r : Res A) : E A := fun p => (r, p).

Definition try_except {A} (body : E A) (handler : Exn -> E A) : E A :=
  fun p =>
    match body p with
    | (Ok a, p') => (Ok a, p')
    | (Raise e, p') => handler e p'
    end.

(** The body of the [try]. *)
Definition extract_price_info_try (json_content : string)
    : E (option PriceInfo) :=
  _ ← logger InfoExtracting;
  valid ← call (is_valid_json_response json_content);
  if negb valid
  then _ ← logger WarningInvalidJson; mret None
  else
    data ← lift (json_loads json_content);
    widget_states ← lift (get data "widgetStates" (JObj []));
    if negb (truthy widget_states)
    then _ ← logger WarningNoWidgetStates; mret None
    else
      n ← lift (len_of widget_states);
      _ ← logger (InfoFoundWidgetStates n);
      web_price_value ← call (find_web_price_property widget_states);
      if negb (truthy web_price_value)
      then _ ← logger WarningNoWebPrice; mret None
      else
        _ ← logger InfoFoundWebPrice;
        price_info ← call (parse_price_data web_price_value);
        match price_info with
        | Some price_info =>
            title ← call (find_product_title widget_states);
            price_info ←
              (if truthy_str title
               then
                 _ ← logger (InfoFoundTitle
                               (String.substring 0 50 (default "" title)));
                 mret (mkPriceInfo (price_fields price_info) title)
               else mret price_info);
            _ ← logger (InfoExtracted price_info);
            mret (Some price_info)
        | None => _ ← logger WarningParseFailed; mret None
        end.

(** The method: the [try] with its two handlers. *)
Definition extract_price_info (json_content : string)
    : E (option PriceInfo) :=
  try_except (extract_price_info_try json_content)
    (fun e =>
       if String.eqb (exn_class e) "JSONDecodeError"
       then
         _ ← logger (ErrorJsonDecode e);
         _ ← logger (DebugJsonPreview (String.substring 0 500 json_content));
         mret None
       else
         _ ← logger (ErrorExtracting e);
         mret None).

End Effects.
End Extractor.

(** ** OzonParser *)

Module OzonParser.
Section Coordinator.
Context `{Schemas} `{!Settings} `{!Helpers} `{!Selenium}.

(** *** _distribute_articles *)

(** The body of [for i in range(0, total, MAX_ARTICLES_PER_WORKER)]. *)
Fixpoint distribute_loop (articles : list Z) (indices : list Z)
    (groups : list (list Z)) : list (list Z) :=
  match indices with
  | [] => groups
  | i :: rest =>
      let group := slice articles i (i + MAX_ARTICLES_PER_WORKER) in
      let groups := groups ++ [group] in
      if MAX_WORKERS <=? len groups then groups
      else distribute_loop articles rest groups
  end.

Definition _distribute_articles (articles : list Z) : Res (list (list Z)) :=
  let total := len articles in
  if total <=? MAX_ARTICLES_PER_WORKER then Ok [articles]
  else
    indices ← range 0 total MAX_ARTICLES_PER_WORKER;
    Ok (distribute_loop articles indices []).

(** *** _parse_with_single_worker, _parse_worker_group *)

(** The session state the worker leaves behind is dropped with the worker. *)
Definition _parse_with_single_worker (w : World) (articles : list Z)
    : Res (list ArticleResult) :=
  fst (OzonWorker.try_finally
         (_ ← OzonWorker.initialize; OzonWorker.parse_articles articles)
         OzonWorker.close
         (OzonWorker.new w)).

Definition _parse_worker_group (w : World) (articles : list Z)
    : Res (list ArticleResult) :=
  fst (OzonWorker.try_finally
         (_ ← OzonWorker.initialize; OzonWorker.parse_articles articles)
         OzonWorker.close
         (OzonWorker.new w)).

(** *** _sort_results_by_original_order *)

(** [{result.article: result for result in results}]: a later result
    replaces an earlier one under the same key. *)
Definition result_dict_of (results : list ArticleResult)
    : gmap Z ArticleResult :=
  foldl (fun d result => <[article result := result]> d) ∅ results.

(** [[result_dict[article] for article in original_articles
      if article in result_dict]] *)
Definition _sort_results_by_original_order (results : list ArticleResult)
    (original_articles : list Z) : list ArticleResult :=
  let result_dict := result_dict_of results in
  omap (fun article => result_dict !! article) original_articles.

(** *** _parse_with_multiple_workers *)

(** [concurrent.futures.as_completed(futures)]: the futures in the order in
    which they complete. [completion] lists their indices in that order;
    which order it is lies with the scheduler. *)
Definition as_completed {A} (completion : list nat) (futures : list A)
    : list A :=
  omap (fun k => futures !! k) completion.

(** The collecting loop: [future.result()] raises what the worker raised. *)
Fixpoint collect (completed : list (Res (list ArticleResult)))
    (all_results : list ArticleResult) : Res (list ArticleResult) :=
  match completed with
  | [] => Ok all_results
  | future :: rest =>
      worker_results ← future;
      collect rest (all_results ++ worker_results)
  end.

(** [sessions k] is the session that the worker of the [k]-th submitted
    group opens: every worker constructs its own [SeleniumManager], so what a
    group's future holds is decided by its own session. The executor refuses
    [max_workers <= 0]; leaving the [with] block waits for every submitted
    group. *)
Definition _parse_with_multiple_workers (sessions : nat -> World)
    (completion : list nat) (worker_groups : list (list Z))
    (original_articles : list Z) : Res (list ArticleResult) :=
  if len worker_groups <=? 0
  then Raise (ValueError "max_workers must be greater than 0")
  else
    let futures :=
      imap (fun k group => _parse_worker_group (sessions k) group)
           worker_groups in
    all_results ← collect (as_completed completion futures) [];
    Ok (_sort_results_by_original_order all_results original_articles).

(** *** parse_articles *)

Definition parse_articles (sessions : nat -> World) (completion : list nat)
    (articles : list Z) : Res (list ArticleResult) :=
  worker_groups ← _distribute_articles articles;
  if len worker_groups =? 1
  then _parse_with_single_worker (sessions 0%nat) articles
  else _parse_with_multiple_workers sessions completion worker_groups articles.

End Coordinator.
End OzonParser.

(** ** Vocabulary of the properties *)

Section Vocabulary.
Context `{Schemas} `{!Settings} `{!Helpers} `{!Selenium}.

(** The [k]-th slice of [MAX_ARTICLES_PER_WORKER] consecutive identifiers. *)
Definition chunk (articles : list Z) (k : nat) : list Z :=
  take (Z.to_nat MAX_ARTICLES_PER_WORKER)
       (drop (k * Z.to_nat MAX_ARTICLES_PER_WORKER) articles).

(** The most groups a call forms: the loop appends before it tests. *)
Definition worker_cap : nat := Nat.max 1 (Z.to_nat MAX_WORKERS).

(** The number of slices that cover [total] identifiers. *)
Definition slices_of (total : nat) : nat :=
  Z.to_nat ((Z.of_nat total - 1) / MAX_ARTICLES_PER_WORKER + 1).

(** The invariant of the data model: [success] decides which of
    [price_info] and [error] is there. *)
Definition well_formed (r : ArticleResult) : Prop :=
  if success r
  then is_Some (price_info r) /\ error r = None
  else is_Some (error r) /\ price_info r = None.

(** What a step leaves of the worker apart from its session. *)
Definition same_worker (self self' : OzonWorker.t) : Prop :=
  OzonWorker.driver self' = OzonWorker.driver self
  /\ OzonWorker.attempts_logged self' = OzonWorker.attempts_logged self.

(** The result of the last line of [parse_single_article]. *)
Definition max_retries_exceeded (a : Z) : ArticleResult :=
  mkArticleResult a false None (Some "Max retries exceeded").

(** The pipeline fails for an identifier when no pass through the [try] of
    an attempt, in whatever state of the worker and its session, returns a
    successful result. *)
Definition pipeline_always_fails (a : Z) : Prop :=
  forall (attempt : Z) (self self' : OzonWorker.t) (r : ArticleResult),
    OzonWorker.attempt_try a attempt self = (Ok (OzonWorker.Return r), self')
    -> success r = false.

(** The non-empty widget states of a parsed payload, if it has any. *)
Definition widget_states_of (data : json) : option json :=
  match get data "widgetStates" (JObj []) with
  | Ok widget_states =>
      if truthy widget_states && is_ok (len_of widget_states)
      then Some widget_states else None
  | Raise _ => None
  end.

(** The price-bearing entry of the widget states, if one is found. *)
Definition web_price_of (widget_states : json) : option json :=
  match find_web_price_property widget_states with
  | Ok web_price_value =>
      if truthy web_price_value then Some web_price_value else None
  | Raise _ => None
  end.

(** The futures of a call: one per group, on the group's own session. *)
Definition futures_of (sessions : nat -> World)
    (worker_groups : list (list Z)) : list (Res (list ArticleResult)) :=
  imap (fun k group => OzonParser._parse_worker_group (sessions k) group)
       worker_groups.

(** A session on which a browser starts, and a manager that closes. *)
Definition starts (w : World) : Prop :=
  exists d w', setup_driver w = (Ok (Some d), w').

Definition closes : Prop :=
  forall w : World, (close_manager w).1 = Ok tt.

(** The log lines of [m] attempts on one identifier: attempts 1 to [m]. *)
Definition numbered_attempts (a : Z) (m : nat) : list (Z * Z) :=
  map (fun k : nat => (a, Z.of_nat k + 1)) (seq 0 m).


(** The helpers of [utils.helpers] behave as functions of their arguments:
    a call returns what the function of [Helpers] returns (or raises what it
    raises) and leaves the state of the helpers' module as it was. *)
Definition helpers_are_functions `{!Extractor.StatefulHelpers} : Prop :=
  (forall json_content g,
     Extractor.is_valid_json_response json_content g
     = (is_valid_json_response json_content, g))
  /\ (forall widget_states g,
        Extractor.find_web_price_property widget_states g
        = (find_web_price_property widget_states, g))
  /\ (forall web_price_value g,
        Extractor.parse_price_data web_price_value g
        = (parse_price_data web_price_value, g))
  /\ (forall widget_states g,
        Extractor.find_product_title widget_states g
        = (find_product_title widget_states, g)).

End Vocabulary.

(** ** A concrete site, for running the program *)

Module Demo.

Definition schemas : Schemas := {| PriceFields := Z |}.

Definition settings (cap workers retries : Z) : Settings :=
  {| MAX_ARTICLES_PER_WORKER := cap;
     MAX_WORKERS := workers;
     MAX_RETRIES := retries;
     RETRY_DELAY := 2 |}.

(** The page of item 111 carries a price widget (999) and a title widget
    ("Widget"); any other page is not JSON. *)
Definition helpers : @Helpers schemas :=
  {| build_ozon_api_url a :=
       Ok (if a =? 111 then "/product/111" else "/product/other");
     is_valid_json_response s := Ok (String.eqb s "{widgets of 111}");
     json_loads s :=
       if String.eqb s "{widgets of 111}"
       then Ok (JObj [("widgetStates",
                       JObj [("webPrice-1", JStr "999");
                             ("webProductHeading-1", JStr "Widget")])])
       else Raise (mkExn "JSONDecodeError" "Expecting value");
     find_web_price_property ws := get ws "webPrice-1" JNull;
     parse_price_data v :=
       match v with
       | JStr s =>
           if String.eqb s "999"
           then Ok (Some (@mkPriceInfo schemas 999 None))
           else Ok None
       | _ => Ok None
       end;
     find_product_title ws :=
       match get ws "webProductHeading-1" JNull with
       | Ok (JStr s) => Ok (Some s)
       | _ => Ok None
       end |}.

(** A browser session: whether a browser can be started at all, how many of
    the coming navigations fail, and the address of the page shown. *)
Record world : Type := mkWorld {
  startable : bool;
  failing_navigations : nat;
  address : string
}.

Definition site : Selenium :=
  {| World := world;
     Driver := unit;
     setup_driver w :=
       if startable w then (Ok (Some tt), w)
       else (Raise (mkExn "WebDriverException" "cannot start a browser"), w);
     navigate_to_url url w :=
       match failing_navigations w with
       | O => (Ok true, mkWorld (startable w) O url)
       | S n => (Ok false, mkWorld (startable w) n (address w))
       end;
     debug_page_content w := (Ok tt, w);
     wait_for_json_response w :=
       (Ok (if String.eqb (address w) "/product/111"
            then Some "{widgets of 111}"
            else Some "<html>"), w);
     close_manager w := (Ok tt, w);
     current_url _ w := (Ok (address w), w);
     page_title _ w := (Ok "Ozon", w);
     page_source _ w := (Ok "<html>", w) |}.

(** A session with a working browser whose first [n] navigations fail. *)
Definition session (n : nat) : world := mkWorld true n "about:blank".

(** A session on a machine where no browser can be started. *)
Definition broken_session : world := mkWorld false O "about:blank".

(** [OzonParser().parse_articles(articles)] on the site. *)
Definition parse (cfg : Settings) (sessions : nat -> world)
    (completion : list nat) (articles : list Z)
    : Res (list (@ArticleResult schemas)) :=
  @OzonParser.parse_articles schemas cfg helpers site sessions completion
    articles.

(** The results the site gives. *)
Definition priced (a : Z) : @ArticleResult schemas :=
  mkArticleResult a true
    (Some (@mkPriceInfo schemas 999 (Some "Widget"))) None.

Definition failed (a : Z) (msg : string) : @ArticleResult schemas :=
  mkArticleResult a false None (Some msg).

(** A worker of the site that holds a driver. *)
Definition worker (w : world) : @OzonWorker.t site :=
  @OzonWorker.mk site w (Some tt) [].

(** The settings, sessions and inputs of the runs below. *)
Definition one_per_worker : Settings := settings 1 2 1.
Definition ten_per_worker : Settings := settings 10 2 1.
Definition three_retries : Settings := settings 10 2 3.

(** The site behind a manager whose [close()] raises. *)
Definition unclosable_site : Selenium :=
  {| World := world;
     Driver := unit;
     setup_driver := @setup_driver site;
     navigate_to_url := @navigate_to_url site;
     debug_page_content := @debug_page_content site;
     wait_for_json_response := @wait_for_json_response site;
     close_manager w :=
       (Raise (mkExn "WebDriverException" "cannot close the browser"), w);
     current_url := @current_url site;
     page_title := @page_title site;
     page_source := @page_source site |}.

(** The site behind a manager whose [setup_driver()] returns no driver. *)
Definition driverless_site : Selenium :=
  {| World := world;
     Driver := unit;
     setup_driver w := (Ok None, w);
     navigate_to_url := @navigate_to_url site;
     debug_page_content := @debug_page_content site;
     wait_for_json_response := @wait_for_json_response site;
     close_manager := @close_manager site;
     current_url := @current_url site;
     page_title := @page_title site;
     page_source := @page_source site |}.

(** The helpers with a title lookup that raises. *)
Definition helpers_without_titles : @Helpers schemas :=
  {| build_ozon_api_url := @build_ozon_api_url schemas helpers;
     is_valid_json_response := @is_valid_json_response schemas helpers;
     json_loads := @json_loads schemas helpers;
     find_web_price_property := @find_web_price_property schemas helpers;
     parse_price_data := @parse_price_data schemas helpers;
     find_product_title ws := Raise (mkExn "KeyError" "webProductHeading") |}.

(** The helpers of the site as a module that keeps no state. *)
Definition stateless_helpers : @Extractor.StatefulHelpers schemas :=
  {| Extractor.Globals := unit;
     Extractor.is_valid_json_response s g :=
       (@is_valid_json_response schemas helpers s, g);
     Extractor.find_web_price_property ws g :=
       (@find_web_price_property schemas helpers ws, g);
     Extractor.parse_price_data v g :=
       (@parse_price_data schemas helpers v, g);
     Extractor.find_product_title ws g :=
       (@find_product_title schemas helpers ws, g) |}.

(** The same helpers behind a validator that counts its calls and accepts a
    payload on its first call only. *)
Definition counting_helpers : @Extractor.StatefulHelpers schemas :=
  {| Extractor.Globals := nat;
     Extractor.is_valid_json_response s calls :=
       (match calls with
        | O => @is_valid_json_response schemas helpers s
        | S _ => Ok false
        end, S calls);
     Extractor.find_web_price_property ws g :=
       (@find_web_price_property schemas helpers ws, g);
     Extractor.parse_price_data v g :=
       (@parse_price_data schemas helpers v, g);
     Extractor.find_product_title ws g :=
       (@find_product_title schemas helpers ws, g) |}.

Definition healthy (k : nat) : world := session 0.
Definition flaky (k : nat) : world := session 1.
Definition second_broken (k : nat) : world :=
  match k with
  | 1%nat => broken_session
  | _ => session 0
  end.

End Demo.

(** * Properties *)

(** Unfolding the worker monad, and a case analysis on what a run branches
    on. *)
Ltac unfold_monad :=
  unfold mbind, mret, OzonWorker.M_bind, OzonWorker.M_ret, OzonWorker.lift,
    OzonWorker.on_session, OzonWorker.get_driver, OzonWorker.set_driver,
    OzonWorker.log_attempt, OzonWorker.try_except, OzonWorker.try_finally,
    OzonWorker.self_extract_price_info in *.

Ltac unfold_effects :=
  unfold mbind, mret, Extractor.E_bind, Extractor.E_ret, Extractor.logger,
    Extractor.call, Extractor.lift in *.

Ltac case_effect :=
  match goal with
  | |- context [match ?x with _ => _ end] =>
      lazymatch x with
      | context [match _ with _ => _ end] => fail
      | _ => destruct x eqn:?; simpl
      end
  end.

Ltac case_pure :=
  match goal with
  | |- exists _, forall _, _ = (Ok ?result, _) =>
      match result with
      | context [match ?x with _ => _ end] =>
          lazymatch x with
          | context [match _ with _ => _ end] => fail
          | _ => destruct x eqn:?; simpl
          end
      end
  end.

Ltac rewrite_equation :=
  match goal with
  | E : ?x = _ |- context [?x] => rewrite E
  end.

Ltac case_step :=
  match goal with
  | H : context [match ?x with _ => _ end] |- _ => destruct x eqn:?
  | H : context [if ?b then _ else _] |- _ => destruct b eqn:?
  end.

(** ** The Python runtime *)

Section PyFacts.

Lemma range_from_zero (stop step : Z) :
  0 < step -> 0 < stop ->
  range 0 stop step
  = Ok (map (fun k : nat => Z.of_nat k * step)
            (seq 0 (Z.to_nat ((stop - 1) / step + 1)))).
Proof.
  intros Hstep Hstop. unfold range, range_len.
  destruct (Z.eqb_spec step 0) as [->|_]; [lia|].
  destruct (Z.ltb_spec 0 step); [|lia].
  destruct (Z.ltb_spec 0 stop); [|lia].
  by rewrite Z.sub_0_r.
Qed.

Lemma range_unit_step (stop : Z) :
  range 0 stop 1 = Ok (map Z.of_nat (seq 0 (Z.to_nat stop))).
Proof.
  unfold range, range_len. simpl.
  destruct (Z.ltb_spec 0 stop) as [Hpos|Hneg].
  - rewrite Z.sub_0_r, Z.div_1_r. replace (stop - 1 + 1) with stop by lia.
    f_equal. apply map_ext. intros k. lia.
  - by replace (Z.to_nat stop) with 0%nat by lia.
Qed.

Lemma elem_of_concat {A} (x : A) (ls : list (list A)) :
  x ∈ concat ls <-> exists l, x ∈ l /\ l ∈ ls.
Proof.
  induction ls as [|l0 ls IH]; simpl.
  - split; [by intros ?%elem_of_nil|]. by intros (l & _ & ?%elem_of_nil).
  - rewrite elem_of_app, IH. split.
    + intros [?|(l & ? & ?)]; [exists l0|exists l]; rewrite elem_of_cons; auto.
    + intros (l & ? & [->|?]%elem_of_cons); eauto.
Qed.

Lemma elem_of_map {A B} (f : A -> B) (l : list A) (y : B) :
  y ∈ map f l <-> exists x, y = f x /\ x ∈ l.
Proof. exact (list_elem_of_fmap f l y). Qed.

Lemma filter_ext_in {A} (P Q : A -> Prop) `{!forall x, Decision (P x)}
    `{!forall x, Decision (Q x)} (l : list A) :
  (forall x, x ∈ l -> (P x <-> Q x)) -> filter P l = filter Q l.
Proof.
  induction l as [|x l IH]; intros Hiff; [done|].
  rewrite !filter_cons, IH.
  - apply decide_ext, Hiff, elem_of_cons. by left.
  - intros y Hy. apply Hiff, elem_of_cons. by right.
Qed.

Lemma filter_all_in {A} (P : A -> Prop) `{!forall x, Decision (P x)}
    (l : list A) :
  (forall x, x ∈ l -> P x) -> filter P l = l.
Proof.
  induction l as [|x l IH]; intros Hall; [done|].
  rewrite filter_cons, decide_True by (apply Hall, elem_of_cons; by left).
  rewrite IH; [done|]. intros y Hy. apply Hall, elem_of_cons. by right.
Qed.

(** Filtering a list by membership in the filtered list changes nothing. *)
Lemma filter_by_kept {A} `{!EqDecision A} (P : A -> Prop)
    `{!forall x, Decision (P x)} (l : list A) :
  filter P l = filter (fun x => x ∈ filter P l) l.
Proof.
  apply filter_ext_in. intros x Hx. rewrite list_elem_of_filter. tauto.
Qed.

Lemma slice_chunk {A} (l : list A) (i c : Z) :
  0 <= i -> 0 <= c ->
  slice l i (i + c) = take (Z.to_nat c) (drop (Z.to_nat i) l).
Proof.
  intros Hi Hc. unfold slice, clamp_index, len.
  destruct (Z.ltb_spec i 0); [lia|].
  destruct (Z.ltb_spec (i + c) 0); [lia|].
  destruct (decide (Z.of_nat (length l) <= i)) as [Hout|Hin].
  - rewrite !drop_ge by lia. by rewrite !take_nil.
  - rewrite (Z.min_l i) by lia.
    destruct (decide (i + c <= Z.of_nat (length l))) as [Hfit|Hcut].
    + rewrite Z.min_l by lia. f_equal. lia.
    + rewrite Z.min_r by lia.
      rewrite !take_ge; [done| |]; rewrite length_drop; lia.
Qed.

End PyFacts.

(** ** Work distribution *)

Section Distribution.
Context `{!Settings}.
#[local] Arguments Nat.min : simpl never.
#[local] Arguments Nat.max : simpl never.

Lemma distribute_loop_chunks (articles : list Z) (n s : nat)
    (groups : list (list Z)) :
  1 <= MAX_ARTICLES_PER_WORKER ->
  length groups = s ->
  OzonParser.distribute_loop articles
    (map (fun k : nat => Z.of_nat k * MAX_ARTICLES_PER_WORKER) (seq s n))
    groups
  = groups
    ++ map (chunk articles)
         (seq s (Nat.min n (Nat.max 1 (Z.to_nat (MAX_WORKERS - Z.of_nat s))))).
Proof.
  intros Hcap. revert s groups.
  induction n as [|n IH]; intros s groups Hlen; simpl.
  - by rewrite app_nil_r.
  - rewrite slice_chunk by lia.
    replace (Z.to_nat (Z.of_nat s * MAX_ARTICLES_PER_WORKER))
      with (s * Z.to_nat MAX_ARTICLES_PER_WORKER)%nat by lia.
    fold (chunk articles s).
    unfold len. rewrite length_app, Hlen. simpl.
    destruct (Z.leb_spec MAX_WORKERS (Z.of_nat (s + 1))) as [Hfull|Hroom].
    + replace (Nat.min (S n) (Nat.max 1 (Z.to_nat (MAX_WORKERS - Z.of_nat s))))
        with 1%nat by lia.
      done.
    + rewrite IH by (rewrite length_app; simpl; lia).
      rewrite <- app_assoc. f_equal.
      replace (Nat.min (S n) (Nat.max 1 (Z.to_nat (MAX_WORKERS - Z.of_nat s))))
        with (S (Nat.min n (Nat.max 1
                   (Z.to_nat (MAX_WORKERS - Z.of_nat (s + 1)))))) by lia.
      simpl. by replace (s + 1)%nat with (S s) by lia.
Qed.

(** What [_distribute_articles] returns for a list longer than one slice. *)
Lemma distribute_chunks (articles : list Z) :
  1 <= MAX_ARTICLES_PER_WORKER ->
  MAX_ARTICLES_PER_WORKER < len articles ->
  OzonParser._distribute_articles articles
  = Ok (map (chunk articles)
            (seq 0 (Nat.min (slices_of (length articles)) worker_cap))).
Proof.
  intros Hcap Hlong. unfold OzonParser._distribute_articles.
  destruct (Z.leb_spec (len articles) MAX_ARTICLES_PER_WORKER); [lia|].
  rewrite range_from_zero by lia. simpl.
  rewrite distribute_loop_chunks by done. simpl.
  by rewrite Z.sub_0_r.
Qed.

Lemma concat_chunks (articles : list Z) (m : nat) :
  concat (map (chunk articles) (seq 0 m))
  = take (m * Z.to_nat MAX_ARTICLES_PER_WORKER) articles.
Proof.
  induction m as [|m IH]; [done|].
  rewrite seq_S, map_app, concat_app, IH. simpl.
  rewrite app_nil_r. unfold chunk. rewrite take_take_drop.
  f_equal. lia.
Qed.

Lemma slices_cover (total : nat) :
  1 <= MAX_ARTICLES_PER_WORKER ->
  (total <= slices_of total * Z.to_nat MAX_ARTICLES_PER_WORKER)%nat.
Proof.
  intros Hcap. unfold slices_of.
  destruct total as [|total]; [lia|].
  assert (0 < MAX_ARTICLES_PER_WORKER) as Hpos by lia.
  assert (0 <= Z.of_nat (S total) - 1) as Hnonneg by lia.
  pose proof (Z.mul_succ_div_gt _ _ Hpos : Z.of_nat (S total) - 1 < _) as Hgt.
  pose proof (Z.div_pos _ _ Hnonneg Hpos) as Hq.
  nia.
Qed.

(** The groups together are the first [worker_cap] slices of the input. *)
Lemma concat_groups (articles : list Z) :
  1 <= MAX_ARTICLES_PER_WORKER ->
  concat (map (chunk articles)
              (seq 0 (Nat.min (slices_of (length articles)) worker_cap)))
  = take (worker_cap * Z.to_nat MAX_ARTICLES_PER_WORKER) articles.
Proof.
  intros Hcap. rewrite concat_chunks.
  destruct (Nat.le_ge_cases (slices_of (length articles)) worker_cap)
    as [Hfew|Hmany].
  - rewrite Nat.min_l by done.
    pose proof (slices_cover (length articles) Hcap).
    rewrite !take_ge; [done| |]; nia.
  - by rewrite Nat.min_r.
Qed.

Lemma two_slices (total : nat) :
  1 <= MAX_ARTICLES_PER_WORKER ->
  MAX_ARTICLES_PER_WORKER < Z.of_nat total ->
  (2 <= slices_of total)%nat.
Proof.
  intros Hcap Hlong. unfold slices_of.
  assert (0 < (Z.of_nat total - 1) / MAX_ARTICLES_PER_WORKER)
    by (apply Z.div_str_pos; lia).
  lia.
Qed.

End Distribution.

(** ** The payload extractor *)

Section ExtractorFacts.
Context `{Schemas} `{!Settings} `{!Helpers} `{!Selenium}.

Import OzonWorker.

Lemma widget_states_of_Some (data widget_states : json) :
  widget_states_of data = Some widget_states <->
  get data "widgetStates" (JObj []) = Ok widget_states
  /\ truthy widget_states = true
  /\ is_ok (len_of widget_states) = true.
Proof.
  unfold widget_states_of.
  destruct (get data "widgetStates" (JObj [])) as [ws|e].
  - destruct (truthy ws) eqn:Htruthy, (is_ok (len_of ws)) eqn:Hlen; simpl;
      split; try done.
    + by intros [= <-].
    + by intros ([= <-] & _ & _).
    + intros ([= <-] & _ & ?). congruence.
    + intros ([= <-] & ? & _). congruence.
    + intros ([= <-] & ? & _). congruence.
  - split; [done|]. by intros [? _].
Qed.

Lemma web_price_of_Some (widget_states web_price_value : json) :
  web_price_of widget_states = Some web_price_value <->
  find_web_price_property widget_states = Ok web_price_value
  /\ truthy web_price_value = true.
Proof.
  unfold web_price_of.
  destruct (find_web_price_property widget_states) as [v|e].
  - destruct (truthy v) eqn:Htruthy; split; try done.
    + by intros [= <-].
    + by intros ([= <-] & _).
    + intros ([= <-] & ?). congruence.
  - split; [done|]. by intros [? _].
Qed.

(** When, and with what, [extract_price_info] returns a [PriceInfo]. *)
Lemma extract_price_info_Some (json_content : string) (result : PriceInfo) :
  extract_price_info json_content = Some result <->
  exists data widget_states web_price_value parsed found_title,
    is_valid_json_response json_content = Ok true
    /\ json_loads json_content = Ok data
    /\ widget_states_of data = Some widget_states
    /\ web_price_of widget_states = Some web_price_value
    /\ parse_price_data web_price_value = Ok (Some parsed)
    /\ find_product_title widget_states = Ok found_title
    /\ result = (if truthy_str found_title
                then mkPriceInfo (price_fields parsed) found_title
                else parsed).
Proof.
  split.
  - unfold extract_price_info, extract_price_info_try, mbind, Res_bind.
    destruct (is_valid_json_response json_content) as [[|]|e] eqn:Hvalid;
      simpl; [|done|by destruct (String.eqb _ _)].
    destruct (json_loads json_content) as [data|e] eqn:Hdata;
      [|by destruct (String.eqb _ _)].
    destruct (get data "widgetStates" (JObj [])) as [ws|e] eqn:Hget;
      [|by destruct (String.eqb _ _)].
    destruct (truthy ws) eqn:Hws; simpl; [|done].
    destruct (len_of ws) as [n|e] eqn:Hlen; [|by destruct (String.eqb _ _)].
    destruct (find_web_price_property ws) as [v|e] eqn:Hfind;
      [|by destruct (String.eqb _ _)].
    destruct (truthy v) eqn:Hv; simpl; [|done].
    destruct (parse_price_data v) as [[p|]|e] eqn:Hparse;
      [|done|by destruct (String.eqb _ _)].
    destruct (find_product_title ws) as [t|e] eqn:Htitle;
      [|by destruct (String.eqb _ _)].
    intros Hres. exists data, ws, v, p, t.
    repeat split; try done.
    + apply widget_states_of_Some. by rewrite Hlen.
    + by apply web_price_of_Some.
    + destruct (truthy_str t); by injection Hres.
  - intros (data & ws & v & p & t & Hvalid & Hdata & Hws & Hv & Hparse
            & Htitle & ->).
    apply widget_states_of_Some in Hws as (Hget & Hws & Hlen).
    apply web_price_of_Some in Hv as (Hfind & Hv).
    unfold extract_price_info, extract_price_info_try, mbind, Res_bind.
    rewrite Hvalid. simpl. rewrite Hdata, Hget, Hws. simpl.
    destruct (len_of ws) as [n|e]; [|done].
    rewrite Hfind, Hv. simpl. rewrite Hparse, Htitle.
    by destruct (truthy_str t).
Qed.

End ExtractorFacts.

(** ** The fetch worker *)

Section WorkerFacts.
Context `{Schemas} `{!Settings} `{!Helpers} `{!Selenium}.

Import OzonWorker.

Lemma retry_or_fail_outcome (article attempt : Z) (msg : string)
    (self self' : t) (res : Res Step) :
  retry_or_fail article attempt msg self = (res, self') ->
  self' = self /\
  match res with
  | Ok Continue => attempt < MAX_RETRIES - 1 /\ 0 <= RETRY_DELAY
  | Ok (Return r) =>
      r = mkArticleResult article false None (Some msg)
      /\ MAX_RETRIES - 1 <= attempt
  | Raise e => attempt < MAX_RETRIES - 1 /\ RETRY_DELAY < 0
  end.
Proof.
  unfold retry_or_fail, sleep. unfold_monad.
  destruct (Z.ltb_spec attempt (MAX_RETRIES - 1));
    [destruct (Z.ltb_spec RETRY_DELAY 0)|];
    intros [= <- <-]; auto.
Qed.

Lemma debug_reads_same (self self' : t) (res : Res unit) :
  debug_reads self = (res, self') -> same_worker self self'.
Proof.
  unfold debug_reads, same_worker. unfold_monad. intros Hrun.
  repeat case_step; simplify_eq; done.
Qed.

(** One pass through the [try] logs one attempt; what it returns is a
    well-formed result for [article], and it gives up on a failure only on
    the last attempt. *)
Lemma attempt_try_outcome (a attempt : Z) (self self' : t)
    (res : Res Step) :
  attempt_try a attempt self = (res, self') ->
  driver self' = driver self /\
  attempts_logged self' = attempts_logged self ++ [(a, attempt + 1)] /\
  match res with
  | Ok Continue => attempt < MAX_RETRIES - 1 /\ 0 <= RETRY_DELAY
  | Ok (Return r) =>
      article r = a /\ well_formed r
      /\ (success r = false -> MAX_RETRIES - 1 <= attempt)
  | Raise e => True
  end.
Proof.
  unfold attempt_try. unfold_monad. intros Hrun.
  repeat (simpl in Hrun; case_step); simplify_eq; simpl;
    try match goal with
    | H : debug_reads _ = _ |- _ =>
        apply debug_reads_same in H; destruct H as [? ?]; simpl in *
    end;
    try match goal with
    | H : retry_or_fail _ _ _ _ = _ |- _ =>
        apply retry_or_fail_outcome in H; destruct H as [-> H]; simpl in *
    end;
    repeat split; try done; try tauto.
  all: destruct res as [[|r]|e]; [done| |done].
  all: destruct Hrun as [-> ?]; unfold well_formed; simpl; eauto.
Qed.

(** The handler turns an exception into a retry or into a failed result. *)
Lemma attempt_once_outcome (a attempt : Z) (self self' : t)
    (res : Res Step) :
  attempt_once a attempt self = (res, self') ->
  driver self' = driver self /\
  attempts_logged self' = attempts_logged self ++ [(a, attempt + 1)] /\
  match res with
  | Ok Continue => attempt < MAX_RETRIES - 1 /\ 0 <= RETRY_DELAY
  | Ok (Return r) =>
      article r = a /\ well_formed r
      /\ (if success r
          then attempt_try a attempt self = (Ok (Return r), self')
          else MAX_RETRIES - 1 <= attempt)
  | Raise e => attempt < MAX_RETRIES - 1 /\ RETRY_DELAY < 0
  end.
Proof.
  unfold attempt_once, try_except.
  destruct (attempt_try a attempt self) as [[step|e] self1] eqn:Htry.
  - intros [= <- <-].
    destruct (attempt_try_outcome _ _ _ _ _ Htry) as (Hd & Hl & Hres).
    repeat split; try done.
    destruct step as [|r]; [done|].
    destruct Hres as (? & ? & ?). repeat split; try done.
    destruct (success r); auto.
  - intros Hhandler.
    destruct (attempt_try_outcome _ _ _ _ _ Htry) as (Hd & Hl & _).
    apply retry_or_fail_outcome in Hhandler as [-> Hres].
    repeat split; try done.
    destruct res as [[|r]|e']; [done| |done].
    destruct Hres as [-> ?]. unfold well_formed. simpl. eauto.
Qed.


(** The loop over the attempts [s, s+1, ..., MAX_RETRIES - 1]. *)
Lemma attempt_loop_outcome (a : Z) (n s : nat) (self self' : t)
    (res : Res LoopExit) :
  (s + n)%nat = Z.to_nat MAX_RETRIES ->
  attempt_loop a (map Z.of_nat (seq s n)) self = (res, self') ->
  driver self' = driver self /\
  exists logged,
    attempts_logged self' = attempts_logged self ++ logged
    /\ (length logged <= n)%nat
    /\ match res with
       | Ok (Returned r) =>
           article r = a /\ well_formed r
           /\ (if success r
               then exists attempt self0 self1,
                   attempt_try a attempt self0 = (Ok (Return r), self1)
               else length logged = n)
       | Ok Exhausted => n = 0%nat
       | Raise e => RETRY_DELAY < 0
       end.
Proof.
  revert s self. induction n as [|n IH]; intros s self Hlast; simpl.
  - unfold_monad. intros [= <- <-]. split; [done|].
    exists []. by rewrite app_nil_r.
  - unfold mbind, M_bind.
    destruct (attempt_once a (Z.of_nat s) self) as [[step|e] self1] eqn:Honce;
      apply attempt_once_outcome in Honce as (Hd & Hl & Hres).
    + destruct step as [|r].
      * intros Hrest. destruct Hres as [Hmore _].
        apply IH in Hrest as (Hd' & logged & Hl' & Hlen & Hres'); [|lia].
        split; [congruence|].
        exists ((a, Z.of_nat s + 1) :: logged).
        split; [by rewrite Hl', Hl, <- app_assoc|].
        split; [simpl; lia|].
        destruct res as [[r|]|e]; [|lia|done].
        destruct Hres' as (? & ? & Hkind). repeat split; try done.
        destruct (success r); [done|simpl; lia].
      * unfold mret, M_ret. intros [= <- <-]. split; [done|].
        exists [(a, Z.of_nat s + 1)]. split; [done|].
        split; [simpl; lia|].
        destruct Hres as (? & ? & Hkind). repeat split; try done.
        destruct (success r); [eauto|simpl; lia].
    + intros [= <- <-]. split; [done|].
      exists [(a, Z.of_nat s + 1)]. split; [done|].
      split; [simpl; lia|]. by destruct Hres.
Qed.

(** [parse_single_article] makes at most [MAX_RETRIES] attempts, all of them
    when it fails; what it returns is a well-formed result for the
    identifier; a success is what some pass through the pipeline returned;
    it raises only when [RETRY_DELAY] is not a length of time. *)
Lemma parse_single_article_outcome (a : Z) (self self' : t)
    (res : Res ArticleResult) :
  parse_single_article a self = (res, self') ->
  driver self' = driver self /\
  exists logged,
    attempts_logged self' = attempts_logged self ++ logged
    /\ (length logged <= Z.to_nat MAX_RETRIES)%nat
    /\ match res with
       | Ok r =>
           article r = a /\ well_formed r
           /\ (if success r
               then exists attempt self0 self1,
                   attempt_try a attempt self0 = (Ok (Return r), self1)
               else length logged = Z.to_nat MAX_RETRIES)
       | Raise e => RETRY_DELAY < 0
       end.
Proof.
  unfold parse_single_article. rewrite range_unit_step.
  unfold mbind at 1, M_bind at 1, lift. unfold mbind, M_bind.
  destruct (attempt_loop a _ self) as [[exit|e] self1] eqn:Hloop;
    apply attempt_loop_outcome in Hloop as (Hd & logged & Hl & Hlen & Hres);
    try done.
  - destruct exit as [r|]; unfold mret, M_ret; intros [= <- <-];
      (split; [done|]); exists logged; (split; [done|]); (split; [done|]).
    + done.
    + split; [done|]. split; [unfold well_formed; simpl; eauto|].
      simpl. lia.
  - intros [= <- <-]. split; [done|]. by exists logged.
Qed.

(** The loop of [parse_articles]: one result per identifier, in order. *)
Lemma parse_each_outcome (articles : list Z) (results : list ArticleResult)
    (self self' : t) (res : Res (list ArticleResult)) :
  parse_each articles results self = (res, self') ->
  driver self' = driver self /\
  match res with
  | Ok out =>
      exists new, out = results ++ new
        /\ map article new = articles /\ Forall well_formed new
  | Raise e => RETRY_DELAY < 0
  end.
Proof.
  revert results self. induction articles as [|a rest IH];
    intros results self; simpl.
  - unfold mret, M_ret. intros [= <- <-]. split; [done|].
    exists []. by rewrite app_nil_r.
  - unfold mbind, M_bind.
    destruct (parse_single_article a self) as [[r|e] self1] eqn:Hone;
      apply parse_single_article_outcome in Hone
        as (Hd & logged & _ & _ & Hres).
    + intros Hrest. apply IH in Hrest as [Hd' Hout].
      split; [congruence|].
      destruct res as [out|e]; [|done].
      destruct Hout as (new & -> & Hids & Hwf).
      destruct Hres as (Hid & Hr & _).
      exists (r :: new). rewrite <- app_assoc. simpl.
      repeat split; [by rewrite Hid, Hids|by constructor].
    + by intros [= <- <-].
Qed.

Lemma parse_articles_outcome (articles : list Z) (self self' : t)
    (res : Res (list ArticleResult)) :
  parse_articles articles self = (res, self') ->
  match res with
  | Ok out =>
      is_Some (driver self)
      /\ map article out = articles /\ Forall well_formed out
  | Raise e => driver self = None \/ RETRY_DELAY < 0
  end.
Proof.
  unfold parse_articles, get_driver, lift, mbind, M_bind.
  destruct (driver self) as [d|] eqn:Hdriver.
  - intros Hrun. apply parse_each_outcome in Hrun as [_ Hout].
    destruct res as [out|e]; [|by right].
    destruct Hout as (new & -> & ? & ?). eauto.
  - intros [= <- <-]. by left.
Qed.

(** [initialize] stores the driver or raises what [setup_driver] raised. *)
Lemma initialize_outcome (self : t) :
  initialize self
  = match setup_driver (selenium_manager self) with
    | (Ok d, w) => (Ok tt, mk w d (attempts_logged self))
    | (Raise e, w) => (Raise e, mk w (driver self) (attempts_logged self))
    end.
Proof.
  unfold initialize. unfold_monad.
  by destruct (setup_driver (selenium_manager self)) as [[d|e] w].
Qed.

End WorkerFacts.

(** ** The batch coordinator *)

Section CoordinatorFacts.
Context `{Schemas} `{!Settings} `{!Helpers} `{!Selenium}.

Import OzonParser.

(** *** One worker on one group *)

Lemma worker_group_ok (w : World) (articles : list Z)
    (out : list ArticleResult) :
  _parse_worker_group w articles = Ok out ->
  map article out = articles /\ Forall well_formed out.
Proof.
  unfold _parse_worker_group, OzonWorker.try_finally.
  destruct ((_ ← OzonWorker.initialize; OzonWorker.parse_articles articles)
              (OzonWorker.new w)) as [res self1] eqn:Hbody.
  destruct (OzonWorker.close self1) as [[u|e] self2]; simpl; [|done].
  intros ->. revert Hbody. unfold mbind, OzonWorker.M_bind.
  destruct (OzonWorker.initialize (OzonWorker.new w)) as [[u'|e] self0];
    [|done].
  intros Hrun. by apply parse_articles_outcome in Hrun as (_ & ? & ?).
Qed.

Lemma worker_group_setup_raises (w : World) (articles : list Z) (e : Exn) :
  (setup_driver w).1 = Raise e ->
  exists e', _parse_worker_group w articles = Raise e'.
Proof.
  intros Hsetup.
  unfold _parse_worker_group, OzonWorker.try_finally, mbind,
    OzonWorker.M_bind.
  rewrite initialize_outcome. simpl.
  destruct (setup_driver w) as [[d|e0] w1]; simpl in Hsetup; [done|].
  destruct (OzonWorker.close _) as [[u|e1] self2]; simpl; eauto.
Qed.

(** A worker whose browser starts and closes returns its results. *)
Lemma worker_group_returns (w w1 : World) (d : Driver) (articles : list Z) :
  0 <= RETRY_DELAY ->
  setup_driver w = (Ok (Some d), w1) ->
  (forall w', (close_manager w').1 = Ok tt) ->
  exists out, _parse_worker_group w articles = Ok out.
Proof.
  intros Hdelay Hsetup Hclose.
  unfold _parse_worker_group, OzonWorker.try_finally, mbind,
    OzonWorker.M_bind.
  rewrite initialize_outcome. simpl. rewrite Hsetup.
  destruct (OzonWorker.parse_articles articles _) as [res self1] eqn:Hrun.
  apply parse_articles_outcome in Hrun. simpl in Hrun.
  unfold OzonWorker.close, OzonWorker.on_session.
  specialize (Hclose (OzonWorker.selenium_manager self1)).
  destruct (close_manager _) as [[[]|e] w2]; simpl in Hclose; [|done].
  destruct res as [out|e]; simpl; [eauto|].
  destruct Hrun; [done|lia].
Qed.

Lemma single_worker_is_worker_group (w : World) (articles : list Z) :
  _parse_with_single_worker w articles = _parse_worker_group w articles.
Proof. reflexivity. Qed.

(** *** The merge *)

Lemma result_dict_lookup (results : list ArticleResult)
    (d : gmap Z ArticleResult) (a : Z) (r : ArticleResult) :
  foldl (fun d result => <[article result := result]> d) d results !! a
  = Some r ->
  (r ∈ results /\ article r = a) \/ d !! a = Some r.
Proof.
  revert d. induction results as [|r0 results IH]; intros d; simpl.
  - by right.
  - intros Hlook. apply IH in Hlook as [[Hin Hid]|Hlook].
    + left. split; [by apply elem_of_cons; right|done].
    + destruct (decide (article r0 = a)) as [Heq|Hne].
      * rewrite <- Heq, lookup_insert_eq in Hlook. simplify_eq.
        left. split; [by apply elem_of_cons; left|done].
      * rewrite lookup_insert_ne in Hlook by done. by right.
Qed.

Lemma result_dict_is_Some (results : list ArticleResult)
    (d : gmap Z ArticleResult) (a : Z) :
  is_Some (foldl (fun d result => <[article result := result]> d) d results
           !! a)
  <-> a ∈ map article results \/ is_Some (d !! a).
Proof.
  revert d. induction results as [|r0 results IH]; intros d; simpl.
  - split; [by right|]. intros [Hin|Hd]; [by apply elem_of_nil in Hin|done].
  - rewrite IH, elem_of_cons.
    destruct (decide (article r0 = a)) as [Heq|Hne].
    + rewrite <- Heq, lookup_insert_eq. split; [|by eauto].
      intros [Hin|_]; [by left; right|by left; left].
    + rewrite lookup_insert_ne by done. split.
      * intros [Hin|Hd]; [by left; right|by right].
      * intros [[Heq|Hin]|Hd]; [by subst|by left|by right].
Qed.

(** A key of the dictionary is mapped to a result that carries it. *)
Lemma result_dict_of_lookup (results : list ArticleResult) (a : Z)
    (r : ArticleResult) :
  result_dict_of results !! a = Some r -> r ∈ results /\ article r = a.
Proof.
  intros Hlook. apply result_dict_lookup in Hlook as [?|Hempty]; [done|].
  by rewrite lookup_empty in Hempty.
Qed.

Lemma result_dict_of_is_Some (results : list ArticleResult) (a : Z) :
  is_Some (result_dict_of results !! a) <-> a ∈ map article results.
Proof.
  unfold result_dict_of. rewrite result_dict_is_Some, lookup_empty.
  split; [|by left]. intros [?|Hempty]; [done|]. by destruct Hempty.
Qed.

(** The merged list follows the original order and keeps exactly the
    identifiers that have a result. *)
Lemma sort_results_articles (results : list ArticleResult)
    (original_articles : list Z) :
  map article (_sort_results_by_original_order results original_articles)
  = filter (fun a => a ∈ map article results) original_articles.
Proof.
  unfold _sort_results_by_original_order.
  induction original_articles as [|a rest IH]; [done|].
  simpl. rewrite filter_cons.
  destruct (result_dict_of results !! a) as [r|] eqn:Hlook.
  - pose proof Hlook as Hin.
    apply result_dict_of_lookup in Hlook as [_ Hid].
    rewrite decide_True by (apply result_dict_of_is_Some; eauto).
    simpl. rewrite Hid. f_equal. exact IH.
  - rewrite decide_False; [exact IH|].
    intros Hin. apply result_dict_of_is_Some in Hin as [r Hr]. congruence.
Qed.

(** Every merged result is the dictionary's entry for its own identifier. *)
Lemma sort_results_by_value (results : list ArticleResult)
    (original_articles : list Z) (r : ArticleResult) :
  r ∈ _sort_results_by_original_order results original_articles ->
  result_dict_of results !! article r = Some r /\ r ∈ results.
Proof.
  unfold _sort_results_by_original_order.
  intros Hin. apply list_elem_of_omap in Hin as (a & _ & Hlook).
  pose proof Hlook as Hr. apply result_dict_of_lookup in Hr as [? ->].
  done.
Qed.

(** *** Collecting the futures *)

Lemma collect_ok (completed : list (Res (list ArticleResult)))
    (acc all_results : list ArticleResult) :
  collect completed acc = Ok all_results ->
  exists rss, completed = map Ok rss /\ all_results = acc ++ concat rss.
Proof.
  revert acc. induction completed as [|future rest IH]; intros acc; simpl.
  - intros [= <-]. exists []. by rewrite app_nil_r.
  - destruct future as [rs|e]; simpl; [|done].
    intros Hrest. apply IH in Hrest as (rss & -> & ->).
    exists (rs :: rss). by rewrite <- app_assoc.
Qed.

Lemma collect_raises (completed : list (Res (list ArticleResult)))
    (acc : list ArticleResult) (e : Exn) :
  Raise e ∈ completed -> exists e', collect completed acc = Raise e'.
Proof.
  revert acc. induction completed as [|future rest IH]; intros acc Hin.
  - by apply elem_of_nil in Hin.
  - simpl. destruct future as [rs|e0]; simpl; [|eauto].
    apply elem_of_cons in Hin as [?|Hin]; [done|]. by apply IH.
Qed.

Lemma collect_returns (completed : list (Res (list ArticleResult)))
    (acc : list ArticleResult) :
  Forall (fun future => is_ok future = true) completed ->
  exists all_results, collect completed acc = Ok all_results.
Proof.
  revert acc. induction completed as [|future rest IH]; intros acc Hall.
  - simpl. eauto.
  - apply Forall_cons in Hall as [Hok Hall].
    destruct future as [rs|e]; [|done]. simpl. by apply IH.
Qed.

Lemma lookup_all_indices {A} (pre l : list A) :
  omap (fun k => (pre ++ l) !! k) (seq (length pre) (length l)) = l.
Proof.
  revert pre. induction l as [|x l IH]; intros pre; [done|].
  simpl. rewrite list_lookup_middle by done.
  f_equal. specialize (IH (pre ++ [x])).
  rewrite <- app_assoc, length_app in IH. simpl in IH.
  by rewrite Nat.add_1_r in IH.
Qed.

(** Whatever the order of completion, the same futures are collected. *)
Lemma as_completed_perm {A} (completion : list nat) (futures : list A) :
  completion ≡ₚ seq 0 (length futures) ->
  as_completed completion futures ≡ₚ futures.
Proof.
  intros Hperm. unfold as_completed. rewrite Hperm.
  pose proof (lookup_all_indices [] futures) as Hall. simpl in Hall.
  by rewrite Hall.
Qed.

Lemma as_completed_sound {A} (completion : list nat) (futures : list A)
    (f : A) :
  f ∈ as_completed completion futures -> f ∈ futures.
Proof.
  unfold as_completed. intros (k & _ & Hk)%list_elem_of_omap.
  by eapply list_elem_of_lookup_2.
Qed.

Lemma future_of_group (sessions : nat -> World)
    (worker_groups : list (list Z)) (f : Res (list ArticleResult)) :
  f ∈ futures_of sessions worker_groups <->
  exists k group, worker_groups !! k = Some group
    /\ f = _parse_worker_group (sessions k) group.
Proof.
  unfold futures_of. rewrite list_elem_of_lookup. split.
  - intros (k & Hk). apply list_lookup_imap_Some in Hk as (g & ? & ?). eauto.
  - intros (k & g & Hg & ->). exists k. by rewrite list_lookup_imap, Hg.
Qed.

(** What the merge of a multi-worker call is made of: the results of the
    groups' workers, each complete for its group; and every group is in it
    when [completion] lists every future once. *)
Lemma multiple_workers_ok (sessions : nat -> World) (completion : list nat)
    (worker_groups : list (list Z)) (original_articles : list Z)
    (out : list ArticleResult) :
  _parse_with_multiple_workers sessions completion worker_groups
    original_articles = Ok out ->
  exists all_results,
    out = _sort_results_by_original_order all_results original_articles
    /\ Forall well_formed all_results
    /\ (forall a, a ∈ map article all_results -> a ∈ concat worker_groups)
    /\ (completion ≡ₚ seq 0 (length worker_groups) ->
        forall a, a ∈ concat worker_groups -> a ∈ map article all_results).
Proof.
  unfold _parse_with_multiple_workers.
  destruct (len worker_groups <=? 0); [done|].
  fold (futures_of sessions worker_groups).
  destruct (collect _ []) as [all_results|e] eqn:Hcollect; simpl; [|done].
  intros [= <-]. exists all_results. split; [done|].
  apply collect_ok in Hcollect as (rss & Hfutures & ->). simpl.
  change (map Ok rss) with (Ok <$> rss) in Hfutures.
  assert (forall rs, rs ∈ rss ->
            exists k group, worker_groups !! k = Some group
              /\ _parse_worker_group (sessions k) group = Ok rs) as Hrss.
  { intros rs Hrs. apply (list_elem_of_fmap_2 Ok) in Hrs.
    rewrite <- Hfutures in Hrs. apply as_completed_sound in Hrs.
    apply future_of_group in Hrs as (k & g & ? & ?). eauto. }
  split; [|split].
  - apply Forall_forall. intros r Hr.
    apply elem_of_concat in Hr as (rs & Hr & Hrs).
    apply Hrss in Hrs as (k & g & _ & Hrun).
    apply worker_group_ok in Hrun as [_ Hwf].
    by eapply Forall_forall in Hwf.
  - intros a (r & -> & Hr)%elem_of_map.
    apply elem_of_concat in Hr as (rs & Hr & Hrs).
    apply Hrss in Hrs as (k & g & Hg & Hrun).
    apply worker_group_ok in Hrun as [<- _].
    apply elem_of_concat. exists (map article rs).
    split; [apply elem_of_map; eauto|]. by eapply list_elem_of_lookup_2.
  - intros Hperm a (g & Ha & Hg)%elem_of_concat.
    apply list_elem_of_lookup_1 in Hg as [k Hg].
    assert (_parse_worker_group (sessions k) g
            ∈ as_completed completion (futures_of sessions worker_groups))
      as Hin.
    { rewrite as_completed_perm.
      - apply future_of_group. eauto.
      - unfold futures_of. by rewrite length_imap. }
    rewrite Hfutures in Hin.
    apply list_elem_of_fmap in Hin as (rs & Hrun & Hrs).
    apply worker_group_ok in Hrun as [<- _].
    apply elem_of_map in Ha as (r & -> & Hr).
    apply elem_of_map. exists r. split; [done|].
    apply elem_of_concat. eauto.
Qed.

(** A group whose worker cannot start its browser fails the whole call. *)
Lemma multiple_workers_raises (sessions : nat -> World)
    (completion : list nat) (worker_groups : list (list Z))
    (original_articles : list Z) (k : nat) (group : list Z) (e : Exn) :
  completion ≡ₚ seq 0 (length worker_groups) ->
  worker_groups !! k = Some group ->
  (setup_driver (sessions k)).1 = Raise e ->
  exists e',
    _parse_with_multiple_workers sessions completion worker_groups
      original_articles = Raise e'.
Proof.
  intros Hperm Hgroup Hsetup. unfold _parse_with_multiple_workers.
  destruct (len worker_groups <=? 0); [eauto|].
  fold (futures_of sessions worker_groups).
  destruct (worker_group_setup_raises _ group _ Hsetup) as [e' Hrun].
  assert (Raise e'
          ∈ as_completed completion (futures_of sessions worker_groups))
    as Hin.
  { rewrite as_completed_perm.
    - apply future_of_group. eauto.
    - unfold futures_of. by rewrite length_imap. }
  destruct (collect_raises _ [] _ Hin) as [e'' ->]. simpl. eauto.
Qed.

(** With working browsers every group is served and the call returns. *)
Lemma multiple_workers_returns (sessions : nat -> World)
    (completion : list nat) (worker_groups : list (list Z))
    (original_articles : list Z) :
  0 <= RETRY_DELAY ->
  closes ->
  (forall k, (k < length worker_groups)%nat -> starts (sessions k)) ->
  worker_groups <> [] ->
  exists out,
    _parse_with_multiple_workers sessions completion worker_groups
      original_articles = Ok out.
Proof.
  intros Hdelay Hclose Hstart Hsome. unfold _parse_with_multiple_workers.
  destruct (Z.leb_spec (len worker_groups) 0) as [Hnone|_].
  { destruct worker_groups; [done|]. unfold len in Hnone. simpl in Hnone.
    lia. }
  fold (futures_of sessions worker_groups).
  destruct (collect_returns
              (as_completed completion (futures_of sessions worker_groups))
              []) as [all_results ->]; [|simpl; eauto].
  apply Forall_forall. intros f Hf. apply as_completed_sound in Hf.
  apply future_of_group in Hf as (k & g & Hg & ->).
  destruct (Hstart k) as (d & w' & Hsetup).
  { by eapply lookup_lt_Some. }
  by destruct (worker_group_returns _ _ _ g Hdelay Hsetup Hclose) as [out ->].
Qed.

End CoordinatorFacts.

(** ** The claims *)

Section Claims.
Context `{Schemas} `{!Settings} `{!Helpers} `{!Selenium}.

Import OzonParser.

(** The identifiers of the output, when every future is collected once. *)
Lemma parse_articles_ids (sessions : nat -> World) (completion : list nat)
    (articles : list Z) (groups : list (list Z)) (out : list ArticleResult) :
  _distribute_articles articles = Ok groups ->
  completion ≡ₚ seq 0 (length groups) ->
  parse_articles sessions completion articles = Ok out ->
  map article out
  = if len groups =? 1 then articles
    else filter (fun a => a ∈ concat groups) articles.
Proof.
  intros Hgroups Hperm. unfold parse_articles. rewrite Hgroups. simpl.
  destruct (len groups =? 1).
  - intros Hrun. by apply worker_group_ok in Hrun as [? _].
  - intros Hrun.
    apply multiple_workers_ok in Hrun
      as (all_results & -> & _ & Hsound & Hcomplete).
    rewrite sort_results_articles. apply list_filter_iff.
    intros a. split; [apply Hsound|by apply Hcomplete].
Qed.

(** With a positive capacity, a delay that is a length of time, browsers
    that start and managers that close, [parse_articles] returns. *)
Lemma parse_articles_returns (sessions : nat -> World)
    (completion : list nat) (articles : list Z) :
  1 <= MAX_ARTICLES_PER_WORKER ->
  0 <= RETRY_DELAY ->
  closes ->
  (forall k, starts (sessions k)) ->
  exists out, parse_articles sessions completion articles = Ok out.
Proof.
  intros Hcap Hdelay Hclose Hstart. unfold parse_articles.
  assert (exists out,
            _parse_with_single_worker (sessions 0%nat) articles = Ok out)
    as Hsingle.
  { destruct (Hstart 0%nat) as (d & w' & Hsetup).
    by eapply worker_group_returns. }
  destruct (Z.le_gt_cases (len articles) MAX_ARTICLES_PER_WORKER)
    as [Hshort|Hlong].
  - unfold _distribute_articles.
    by destruct (Z.leb_spec (len articles) MAX_ARTICLES_PER_WORKER); [|lia].
  - rewrite distribute_chunks by lia. simpl.
    destruct (len _ =? 1); [done|].
    apply multiple_workers_returns; try done.
    pose proof (two_slices (length articles) Hcap Hlong).
    intros Hnone%(f_equal length).
    rewrite length_map, length_seq in Hnone. unfold worker_cap in Hnone.
    simpl in Hnone. lia.
Qed.

(** C1. The identifiers of the output of [parse_articles] are the input
    identifiers that have a result, in the order of the input; and two calls
    whose workers complete in different orders return the same sequence of
    identifiers. *)
Theorem parse_articles_keeps_input_order (sessions : nat -> World)
    (completion completion' : list nat) (articles : list Z)
    (out : list ArticleResult) :
  parse_articles sessions completion articles = Ok out ->
  map article out = filter (fun a => a ∈ map article out) articles
  /\ (forall groups out',
        _distribute_articles articles = Ok groups ->
        completion ≡ₚ seq 0 (length groups) ->
        completion' ≡ₚ seq 0 (length groups) ->
        parse_articles sessions completion' articles = Ok out' ->
        map article out' = map article out).
Proof.
  intros Hrun. split.
  - revert Hrun. unfold parse_articles.
    destruct (_distribute_articles articles) as [groups|e]; simpl; [|done].
    destruct (len groups =? 1).
    + intros Hrun. apply worker_group_ok in Hrun as [-> _].
      symmetry. by apply filter_all_in.
    + intros Hrun.
      apply multiple_workers_ok in Hrun as (all_results & -> & _).
      rewrite sort_results_articles. apply filter_by_kept.
  - intros groups out' Hgroups Hperm Hperm' Hrun'.
    rewrite (parse_articles_ids _ _ _ _ _ Hgroups Hperm Hrun).
    by rewrite (parse_articles_ids _ _ _ _ _ Hgroups Hperm' Hrun').
Qed.

(** With a single worker allowed, the one group that is formed is not
    what the inline worker is given: it is given the whole input. *)
Lemma single_group_takes_all (sessions : nat -> World)
    (completion : list nat) (articles : list Z) :
  1 <= MAX_ARTICLES_PER_WORKER ->
  MAX_ARTICLES_PER_WORKER < len articles ->
  MAX_WORKERS <= 1 ->
  _distribute_articles articles = Ok [chunk articles 0]
  /\ parse_articles sessions completion articles
     = _parse_with_single_worker (sessions 0%nat) articles.
Proof.
  intros Hcap Hlong Hone.
  assert (_distribute_articles articles = Ok [chunk articles 0]) as Hgroups.
  { rewrite distribute_chunks by done.
    pose proof (two_slices (length articles) Hcap Hlong).
    replace (Nat.min (slices_of (length articles)) worker_cap) with 1%nat;
      [done|]. unfold worker_cap. lia. }
  split; [done|]. unfold parse_articles. by rewrite Hgroups.
Qed.

(** C2 (as amended). A list of at most [MAX_ARTICLES_PER_WORKER] identifiers
    forms one group and is parsed inline by a single worker. A longer list is
    cut into consecutive slices of [MAX_ARTICLES_PER_WORKER] identifiers, the
    last one possibly shorter, until [MAX_WORKERS] slices exist (one slice at
    least): the groups hold the identifiers below index
    [MAX_ARTICLES_PER_WORKER * MAX_WORKERS] and no other. With two workers or
    more, the output then holds a result for exactly the input positions
    whose value occurs below that index. *)
Theorem distribution_and_capacity (articles : list Z) :
  1 <= MAX_ARTICLES_PER_WORKER ->
  (len articles <= MAX_ARTICLES_PER_WORKER ->
   _distribute_articles articles = Ok [articles]
   /\ forall sessions completion,
       parse_articles sessions completion articles
       = _parse_with_single_worker (sessions 0%nat) articles)
  /\ (MAX_ARTICLES_PER_WORKER < len articles ->
      exists groups,
        _distribute_articles articles = Ok groups
        /\ groups
           = map (chunk articles)
               (seq 0 (Nat.min (slices_of (length articles)) worker_cap))
        /\ concat groups
           = take (worker_cap * Z.to_nat MAX_ARTICLES_PER_WORKER) articles
        /\ (2 <= MAX_WORKERS ->
            forall sessions completion out,
              completion ≡ₚ seq 0 (length groups) ->
              parse_articles sessions completion articles = Ok out ->
              map article out
              = filter
                  (fun a =>
                     a ∈ take
                           (Z.to_nat (MAX_ARTICLES_PER_WORKER * MAX_WORKERS))
                           articles)
                  articles)).
Proof.
  intros Hcap. split.
  - intros Hshort.
    assert (_distribute_articles articles = Ok [articles]) as Hgroups.
    { unfold _distribute_articles.
      by destruct (Z.leb_spec (len articles) MAX_ARTICLES_PER_WORKER);
        [|lia]. }
    split; [done|]. intros sessions completion.
    unfold parse_articles. by rewrite Hgroups.
  - intros Hlong. eexists. split; [by apply distribute_chunks|].
    split; [done|]. split; [by apply concat_groups|].
    intros Hworkers sessions completion out Hperm Hrun.
    rewrite (parse_articles_ids _ _ _ _ _ (distribute_chunks _ Hcap Hlong)
               Hperm Hrun).
    pose proof (two_slices (length articles) Hcap Hlong) as Hslices.
    unfold len at 1. rewrite length_map, length_seq.
    assert (2 <= worker_cap)%nat by (unfold worker_cap; lia).
    destruct (Z.eqb_spec
                (Z.of_nat (Nat.min (slices_of (length articles)) worker_cap))
                1); [lia|].
    rewrite concat_groups by done.
    replace (worker_cap * Z.to_nat MAX_ARTICLES_PER_WORKER)%nat
      with (Z.to_nat (MAX_ARTICLES_PER_WORKER * MAX_WORKERS));
      [done|]. unfold worker_cap. lia.
Qed.

(** C3. When the pipeline fails for an identifier at every attempt, and
    [RETRY_DELAY] is a length of time, [parse_single_article] returns (it does
    not raise) a result with [success = False], having started at most
    [MAX_RETRIES] attempts. *)
Theorem parse_single_article_retry_bound (a : Z) (self : OzonWorker.t) :
  0 <= RETRY_DELAY ->
  pipeline_always_fails a ->
  exists r self' logged,
    OzonWorker.parse_single_article a self = (Ok r, self')
    /\ success r = false
    /\ OzonWorker.attempts_logged self'
       = OzonWorker.attempts_logged self ++ logged
    /\ (length logged <= Z.to_nat MAX_RETRIES)%nat.
Proof.
  intros Hdelay Hfails.
  destruct (OzonWorker.parse_single_article a self) as [res self'] eqn:Hrun.
  apply parse_single_article_outcome in Hrun
    as (_ & logged & Hlog & Hlen & Hres).
  destruct res as [r|e]; [|lia].
  exists r, self', logged. repeat split; try done.
  destruct Hres as (_ & _ & Hkind).
  destruct (success r) eqn:Hsuccess; [|done].
  destruct Hkind as (attempt & self0 & self1 & Htry).
  apply Hfails in Htry. congruence.
Qed.

(** C4 (as amended). When the worker of one group of a multi-group call
    cannot acquire its browser, the call raises: collecting that group's
    future raises again what its worker raised, and no result is returned,
    whatever the other groups produced. *)
Theorem worker_failure_aborts_batch (sessions : nat -> World)
    (completion : list nat) (articles : list Z) (groups : list (list Z))
    (k : nat) (group : list Z) (e : Exn) :
  _distribute_articles articles = Ok groups ->
  len groups <> 1 ->
  completion ≡ₚ seq 0 (length groups) ->
  groups !! k = Some group ->
  (setup_driver (sessions k)).1 = Raise e ->
  exists e', parse_articles sessions completion articles = Raise e'.
Proof.
  intros Hgroups Hmany Hperm Hgroup Hsetup.
  unfold parse_articles. rewrite Hgroups. simpl.
  destruct (Z.eqb_spec (len groups) 1); [done|].
  by eapply multiple_workers_raises.
Qed.

(** C5 (as amended). When more than one group is formed, the results of the
    output that carry the same identifier are one and the same result: the
    merge looks a result up by the value of the identifier. *)
Theorem merged_duplicates_share_result (sessions : nat -> World)
    (completion : list nat) (articles : list Z) (groups : list (list Z))
    (out : list ArticleResult) :
  _distribute_articles articles = Ok groups ->
  len groups <> 1 ->
  parse_articles sessions completion articles = Ok out ->
  forall r1 r2, r1 ∈ out -> r2 ∈ out -> article r1 = article r2 -> r1 = r2.
Proof.
  intros Hgroups Hmany. unfold parse_articles. rewrite Hgroups. simpl.
  destruct (Z.eqb_spec (len groups) 1); [done|].
  intros Hrun r1 r2 Hr1 Hr2 Hid.
  apply multiple_workers_ok in Hrun as (all_results & -> & _).
  apply sort_results_by_value in Hr1 as [Hr1 _].
  apply sort_results_by_value in Hr2 as [Hr2 _].
  rewrite Hid in Hr1. congruence.
Qed.

(** C6. Every result that [parse_single_article] constructs, and so every
    result that [parse_articles] returns, carries a [price_info] and no
    [error] when [success] is true, and an [error] and no [price_info] when
    it is false. *)
Theorem article_results_well_formed :
  (forall a self r self',
     OzonWorker.parse_single_article a self = (Ok r, self') ->
     well_formed r)
  /\ (forall sessions completion articles out,
        parse_articles sessions completion articles = Ok out ->
        Forall well_formed out).
Proof.
  split.
  - intros a self r self' Hrun.
    apply parse_single_article_outcome in Hrun as (_ & logged & _ & _ & Hres).
    apply Hres.
  - intros sessions completion articles out. unfold parse_articles.
    destruct (_distribute_articles articles) as [groups|e]; simpl; [|done].
    destruct (len groups =? 1).
    + intros Hrun. by apply worker_group_ok in Hrun as [_ ?].
    + intros Hrun.
      apply multiple_workers_ok in Hrun as (all_results & -> & Hwf & _).
      apply Forall_forall. intros r Hr.
      apply sort_results_by_value in Hr as [_ Hr].
      by eapply Forall_forall in Hwf.
Qed.

(** C7. [extract_price_info] returns [None] when the payload is not valid
    JSON, when the parsed payload has no non-empty collection of widget
    states, when no price entry is found in them, and when the entry does
    not parse to a price; a [PriceInfo] it returns carries the price fields
    that [parse_price_data] parsed; and with the price parsed, a missing
    title leaves the parsed [PriceInfo] as the result. *)
Theorem extract_price_info_contract (json_content : string) :
  (is_valid_json_response json_content <> Ok true ->
   OzonWorker.extract_price_info json_content = None)
  /\ ((forall data, json_loads json_content <> Ok data) ->
      OzonWorker.extract_price_info json_content = None)
  /\ (forall data,
        json_loads json_content = Ok data ->
        (widget_states_of data = None ->
         OzonWorker.extract_price_info json_content = None)
        /\ (forall widget_states,
              widget_states_of data = Some widget_states ->
              (web_price_of widget_states = None ->
               OzonWorker.extract_price_info json_content = None)
              /\ (forall web_price_value,
                    web_price_of widget_states = Some web_price_value ->
                    (forall parsed,
                       parse_price_data web_price_value <> Ok (Some parsed))
                    -> OzonWorker.extract_price_info json_content = None)))
  /\ (forall result,
        OzonWorker.extract_price_info json_content = Some result ->
        exists data widget_states web_price_value parsed,
          json_loads json_content = Ok data
          /\ widget_states_of data = Some widget_states
          /\ web_price_of widget_states = Some web_price_value
          /\ parse_price_data web_price_value = Ok (Some parsed)
          /\ price_fields result = price_fields parsed)
  /\ (forall data widget_states web_price_value parsed found_title,
        is_valid_json_response json_content = Ok true ->
        json_loads json_content = Ok data ->
        widget_states_of data = Some widget_states ->
        web_price_of widget_states = Some web_price_value ->
        parse_price_data web_price_value = Ok (Some parsed) ->
        find_product_title widget_states = Ok found_title ->
        truthy_str found_title = false ->
        OzonWorker.extract_price_info json_content = Some parsed).
Proof.
  assert (forall P : Prop,
            (forall result,
               OzonWorker.extract_price_info json_content = Some result -> P)
            -> (P -> False)
            -> OzonWorker.extract_price_info json_content = None) as Hnone.
  { intros P Hsome Hnot.
    destruct (OzonWorker.extract_price_info json_content) as [result|];
      [|done]. destruct Hnot. by eapply Hsome. }
  split; [|split; [|split; [|split]]].
  - intros Hvalid. eapply Hnone; [|exact Hvalid].
    by intros result (? & ? & ? & ? & ? & ? & _)%extract_price_info_Some.
  - intros Hloads.
    apply (Hnone (exists data, json_loads json_content = Ok data)).
    + intros result (data & ? & ? & ? & ? & _ & ? & _)
        %extract_price_info_Some. eauto.
    + intros [data Hdata]. by eapply Hloads.
  - intros data Hdata. split; [|intros ws Hws; split].
    + intros Hws.
      apply (Hnone (is_Some (widget_states_of data))).
      * intros result (data' & ws & ? & ? & ? & _ & Hdata' & Hws' & _)
          %extract_price_info_Some.
        rewrite Hdata in Hdata'. injection Hdata' as <-. eauto.
      * rewrite Hws. by intros [? ?].
    + intros Hprice.
      apply (Hnone (is_Some (web_price_of ws))).
      * intros result (data' & ws' & v & ? & ? & _ & Hdata' & Hws' & Hv & _)
          %extract_price_info_Some.
        rewrite Hdata in Hdata'. injection Hdata' as <-.
        rewrite Hws in Hws'. injection Hws' as <-. eauto.
      * rewrite Hprice. by intros [? ?].
    + intros v Hv Hparse.
      apply (Hnone (exists parsed, parse_price_data v = Ok (Some parsed))).
      * intros result
          (data' & ws' & v' & p & ? & _ & Hdata' & Hws' & Hv' & Hp & _)
          %extract_price_info_Some.
        rewrite Hdata in Hdata'. injection Hdata' as <-.
        rewrite Hws in Hws'. injection Hws' as <-.
        rewrite Hv in Hv'. injection Hv' as <-. eauto.
      * intros [p Hp]. by eapply Hparse.
  - intros result (data & ws & v & p & t & _ & Hdata & Hws & Hv & Hp & _ & ->)
      %extract_price_info_Some.
    exists data, ws, v, p. repeat split; try done.
    by destruct (truthy_str t).
  - intros data ws v p t Hvalid Hdata Hws Hv Hp Ht Habsent.
    apply extract_price_info_Some. exists data, ws, v, p, t.
    repeat split; try done. by rewrite Habsent.
Qed.

Context `{!Extractor.StatefulHelpers}.

(** C8 (as amended). [extract_price_info], with its logger calls and with
    helpers that may keep state: whatever the helpers do, a call returns
    (it never raises), leaves the worker as it was, and hands the logger at
    least one record, "Extracting price info from JSON content", so it is
    not free of I/O. When the helpers are functions of their arguments, the
    result and the records written are functions of the payload alone: in
    every state of the worker, of the helpers' module and of the log the
    call returns the same result, the one of [OzonWorker.extract_price_info],
    appends the same records and changes nothing else, so a second call on
    the same payload returns what the first one returned. *)
Theorem extract_price_info_effects (json_content : string) :
  (forall p : Extractor.Process,
     exists result g records,
       Extractor.extract_price_info json_content p
       = (Ok result,
          Extractor.mkProcess (Extractor.worker p) g
            (Extractor.logged p ++ Extractor.InfoExtracting :: records)))
  /\ (helpers_are_functions ->
      exists records,
        (forall p : Extractor.Process,
           Extractor.extract_price_info json_content p
           = (Ok (OzonWorker.extract_price_info json_content),
              Extractor.mkProcess (Extractor.worker p) (Extractor.globals p)
                (Extractor.logged p
                 ++ Extractor.InfoExtracting :: records)))
        /\ (forall p : Extractor.Process,
              (first ← Extractor.extract_price_info json_content;
               second ← Extractor.extract_price_info json_content;
               mret (first, second)) p
              = (Ok (OzonWorker.extract_price_info json_content,
                     OzonWorker.extract_price_info json_content),
                 Extractor.mkProcess (Extractor.worker p)
                   (Extractor.globals p)
                   (Extractor.logged p
                    ++ (Extractor.InfoExtracting :: records)
                    ++ Extractor.InfoExtracting :: records)))).
Proof.
  split.
  - intros p.
    unfold Extractor.extract_price_info, Extractor.try_except,
      Extractor.extract_price_info_try.
    unfold_effects. simpl.
    repeat case_effect; rewrite <- ?app_assoc; simpl;
      by do 3 eexists.
  - intros (Hvalid & Hfind & Hparse & Htitle).
    assert (exists records, forall p : Extractor.Process,
              Extractor.extract_price_info json_content p
              = (Ok (OzonWorker.extract_price_info json_content),
                 Extractor.mkProcess (Extractor.worker p)
                   (Extractor.globals p)
                   (Extractor.logged p
                    ++ Extractor.InfoExtracting :: records)))
      as [records Hrun].
    { unfold Extractor.extract_price_info, Extractor.try_except,
        Extractor.extract_price_info_try, OzonWorker.extract_price_info,
        OzonWorker.extract_price_info_try.
      unfold_effects. unfold Res_bind. simpl.
      repeat case_pure.
      all: eexists; intros process.
      all: repeat (progress
                     (rewrite ?Hvalid, ?Hfind, ?Hparse, ?Htitle; simpl;
                      repeat rewrite_equation; simpl)).
      all: rewrite <- ?app_assoc; simpl.
      all: reflexivity. }
    exists records. split; [done|].
    intros p. unfold mbind, mret, Extractor.E_bind, Extractor.E_ret.
    rewrite Hrun, Hrun. simpl. by rewrite <- app_assoc.
Qed.

(** C9. [parse_single_article] returns its last line's "Max retries
    exceeded" result exactly when the loop over the attempts is left without
    a [return]; with [MAX_RETRIES >= 1] the loop is never left that way, so
    the last line is not reached (with [MAX_RETRIES <= 0] it is all that
    runs). *)
Theorem max_retries_fallback_unreachable (a : Z) (self : OzonWorker.t) :
  exists attempts,
    range 0 MAX_RETRIES 1 = Ok attempts
    /\ OzonWorker.parse_single_article a self
       = match OzonWorker.attempt_loop a attempts self with
         | (Ok (OzonWorker.Returned r), self') => (Ok r, self')
         | (Ok OzonWorker.Exhausted, self') =>
             (Ok (max_retries_exceeded a), self')
         | (Raise e, self') => (Raise e, self')
         end
    /\ (1 <= MAX_RETRIES ->
        (OzonWorker.attempt_loop a attempts self).1
        <> Ok OzonWorker.Exhausted)
    /\ (MAX_RETRIES <= 0 ->
        OzonWorker.parse_single_article a self
        = (Ok (max_retries_exceeded a), self)).
Proof.
  exists (map Z.of_nat (seq 0 (Z.to_nat MAX_RETRIES))).
  split; [apply range_unit_step|].
  assert (OzonWorker.parse_single_article a self
          = match OzonWorker.attempt_loop a
                    (map Z.of_nat (seq 0 (Z.to_nat MAX_RETRIES))) self with
            | (Ok (OzonWorker.Returned r), self') => (Ok r, self')
            | (Ok OzonWorker.Exhausted, self') =>
                (Ok (max_retries_exceeded a), self')
            | (Raise e, self') => (Raise e, self')
            end) as Hdef.
  { unfold OzonWorker.parse_single_article. rewrite range_unit_step.
    unfold mbind, OzonWorker.M_bind, OzonWorker.lift.
    by destruct (OzonWorker.attempt_loop a _ self) as [[[r|]|e] self']. }
  split; [done|]. split.
  - intros Hretries.
    destruct (OzonWorker.attempt_loop a _ self) as [res self'] eqn:Hloop.
    apply attempt_loop_outcome in Hloop as (_ & logged & _ & _ & Hres);
      [|lia].
    simpl. intros ->. lia.
  - intros Hnone. rewrite Hdef.
    by replace (Z.to_nat MAX_RETRIES) with 0%nat by lia.
Qed.

(** C10 (as amended). An initialized worker returns, for the list it is
    given, one result per identifier, the [i]-th result carrying the [i]-th
    identifier (when [RETRY_DELAY] is a length of time). So when
    [parse_articles] returns, every identifier that was put in a group has a
    result in the output; and when the merge ran, every group's future held
    a result list and the identifiers of the output are the input
    identifiers whose value was put in a group, in input order: what the
    merge drops is what was not scheduled. A group that is lost, its future
    holding an exception, drops nothing: the call raises. *)
Theorem merge_drops_only_unscheduled :
  (forall (articles : list Z) (self : OzonWorker.t),
     0 <= RETRY_DELAY ->
     is_Some (OzonWorker.driver self) ->
     exists out self',
       OzonWorker.parse_articles articles self = (Ok out, self')
       /\ length out = length articles
       /\ forall i, article <$> out !! i = articles !! i)
  /\ (forall sessions completion articles groups out,
        1 <= MAX_ARTICLES_PER_WORKER ->
        _distribute_articles articles = Ok groups ->
        completion ≡ₚ seq 0 (length groups) ->
        parse_articles sessions completion articles = Ok out ->
        forall a, a ∈ concat groups -> a ∈ map article out)
  /\ (forall sessions completion articles groups out,
        _distribute_articles articles = Ok groups ->
        len groups <> 1 ->
        completion ≡ₚ seq 0 (length groups) ->
        parse_articles sessions completion articles = Ok out ->
        Forall (fun future => is_ok future = true)
               (futures_of sessions groups)
        /\ map article out = filter (fun a => a ∈ concat groups) articles
        /\ forall a, a ∈ articles ->
                     a ∉ map article out <-> a ∉ concat groups)
  /\ (forall sessions completion articles groups (k : nat) e,
        _distribute_articles articles = Ok groups ->
        len groups <> 1 ->
        completion ≡ₚ seq 0 (length groups) ->
        futures_of sessions groups !! k = Some (Raise e) ->
        exists e', parse_articles sessions completion articles = Raise e').
Proof.
  assert (forall sessions completion articles groups (k : nat) e,
            _distribute_articles articles = Ok groups ->
            len groups <> 1 ->
            completion ≡ₚ seq 0 (length groups) ->
            futures_of sessions groups !! k = Some (Raise e) ->
            exists e', parse_articles sessions completion articles = Raise e')
    as Hlost.
  { intros sessions completion articles groups k e Hgroups Hmany Hperm Hk.
    unfold parse_articles. rewrite Hgroups. simpl.
    destruct (Z.eqb_spec (len groups) 1) as [|_]; [done|].
    unfold _parse_with_multiple_workers.
    destruct (len groups <=? 0); [eauto|].
    fold (futures_of sessions groups).
    assert (Raise e ∈ as_completed completion (futures_of sessions groups))
      as Hin.
    { rewrite as_completed_perm.
      - by eapply list_elem_of_lookup_2.
      - unfold futures_of. by rewrite length_imap. }
    destruct (collect_raises _ [] _ Hin) as [e' ->]. simpl. eauto. }
  split; [|split; [|split]].
  - intros articles self Hdelay [d Hdriver].
    destruct (OzonWorker.parse_articles articles self) as [res self']
      eqn:Hrun.
    apply parse_articles_outcome in Hrun.
    destruct res as [out|e].
    + destruct Hrun as (_ & Hids & _). exists out, self'.
      split; [done|]. split.
      * by rewrite <- Hids, length_map.
      * intros i. by rewrite <- Hids, <- list_lookup_fmap.
    + destruct Hrun; [congruence|lia].
  - intros sessions completion articles groups out Hcap Hgroups Hperm Hrun a
      Ha.
    assert (a ∈ articles) as Hin.
    { destruct (Z.le_gt_cases (len articles) MAX_ARTICLES_PER_WORKER)
        as [Hshort|Hlong].
      - revert Hgroups. unfold _distribute_articles.
        destruct (Z.leb_spec (len articles) MAX_ARTICLES_PER_WORKER);
          [|lia].
        intros [= <-]. simpl in Ha. by rewrite app_nil_r in Ha.
      - rewrite distribute_chunks in Hgroups by lia.
        injection Hgroups as <-. rewrite concat_groups in Ha by done.
        apply elem_of_take in Ha as (i & Hi & _).
        by eapply list_elem_of_lookup_2. }
    rewrite (parse_articles_ids _ _ _ _ _ Hgroups Hperm Hrun).
    destruct (len groups =? 1); [done|].
    by apply list_elem_of_filter.
  - intros sessions completion articles groups out Hgroups Hmany Hperm Hrun.
    assert (map article out
            = filter (fun a => a ∈ concat groups) articles) as Hids.
    { rewrite (parse_articles_ids _ _ _ _ _ Hgroups Hperm Hrun).
      by destruct (Z.eqb_spec (len groups) 1). }
    split; [|split; [done|]].
    + apply Forall_forall. intros future Hfuture.
      destruct future as [rs|e]; [done|].
      apply list_elem_of_lookup_1 in Hfuture as [k Hk].
      destruct (Hlost _ _ _ _ _ _ Hgroups Hmany Hperm Hk) as [e' Hraise].
      congruence.
    + intros a Ha. rewrite Hids. rewrite list_elem_of_filter. tauto.
  - exact Hlost.
Qed.

End Claims.

(** ** Runs on the concrete site *)

Section Runs.
#[local] Existing Instance Demo.schemas.
#[local] Existing Instance Demo.helpers.
#[local] Existing Instance Demo.site.

(** The scenario of two identifiers on the single-worker path: the first
    is priced, the second has a page that is not JSON. *)
Example run_single_worker :
  Demo.parse Demo.ten_per_worker Demo.healthy [] [111; 222]
  = Ok [Demo.priced 111; Demo.failed 222 "Failed to extract price info"].
Proof. vm_compute. reflexivity. Qed.

(** Twenty-five identifiers, ten per worker, two workers: two groups of
    ten. *)
Example run_distribution :
  OzonParser._distribute_articles (H0 := Demo.settings 10 2 1)
    (map Z.of_nat (seq 0 25))
  = Ok [map Z.of_nat (seq 0 10); map Z.of_nat (seq 10 10)].
Proof. vm_compute. reflexivity. Qed.

(** A negative [RETRY_DELAY] is not a length of time: the [sleep] of the
    [except] handler raises, and [parse_single_article] with it. *)
Example run_negative_delay :
  (OzonWorker.parse_single_article
     (H0 := {| MAX_ARTICLES_PER_WORKER := 10; MAX_WORKERS := 2;
               MAX_RETRIES := 2; RETRY_DELAY := -1 |})
     222 (Demo.worker (Demo.session 0))).1
  = Raise (ValueError "sleep length must be non-negative").
Proof. vm_compute. reflexivity. Qed.

(** C2, counterexample. One identifier per worker and two workers: the
    identifier at index 2 = 1 * 2 is in no group, and the output still has a
    result at its position, because its value was scheduled at index 0. *)
Lemma capacity_counterexample :
  exists out a,
    OzonParser._distribute_articles (H0 := Demo.one_per_worker)
      [111; 222; 111] = Ok [[111]; [222]]
    /\ Demo.parse Demo.one_per_worker Demo.healthy [0%nat; 1%nat]
         [111; 222; 111] = Ok out
    /\ [111; 222; 111] !! 2%nat = Some a
    /\ a ∈ map article out
    /\ length out = 3%nat
    /\ out = [Demo.priced 111; Demo.failed 222 "Failed to extract price info";
             Demo.priced 111].
Proof.
  eexists _, 111.
  split; [vm_compute; reflexivity|].
  split; [vm_compute; reflexivity|].
  split; [reflexivity|].
  split; [|split; reflexivity].
  simpl. apply elem_of_cons. by left.
Qed.

(** C4, counterexample. Two groups; the browser of the second group's
    worker cannot start. The call raises, in either order of completion,
    although the first group's worker has its result. *)
Lemma lost_group_counterexample :
  Demo.parse Demo.one_per_worker Demo.second_broken [0%nat; 1%nat] [111; 222]
  = Raise (mkExn "WebDriverException" "cannot start a browser")
  /\ Demo.parse Demo.one_per_worker Demo.second_broken [1%nat; 0%nat]
       [111; 222]
     = Raise (mkExn "WebDriverException" "cannot start a browser")
  /\ OzonParser._parse_worker_group (H0 := Demo.one_per_worker)
       (Demo.second_broken 0) [111]
     = Ok [Demo.priced 111].
Proof. repeat split; vm_compute; reflexivity. Qed.

(** C5, counterexample. One group, so one inline worker and no merge: the
    first navigation fails and the next one succeeds, and the two
    occurrences of 111 get different results. *)
Lemma single_worker_duplicates_counterexample :
  exists out r1 r2,
    Demo.parse Demo.ten_per_worker Demo.flaky [] [111; 111] = Ok out
    /\ out = [Demo.failed 111 "Failed to navigate to URL"; Demo.priced 111]
    /\ r1 ∈ out /\ r2 ∈ out /\ article r1 = article r2 /\ r1 <> r2.
Proof.
  exists [Demo.failed 111 "Failed to navigate to URL"; Demo.priced 111],
    (Demo.failed 111 "Failed to navigate to URL"), (Demo.priced 111).
  split; [vm_compute; reflexivity|]. split; [done|].
  split; [apply elem_of_cons; by left|].
  split; [apply elem_of_cons; right; apply elem_of_cons; by left|].
  split; [done|]. discriminate.
Qed.

(** C1 on the site: two groups, completing in either order. *)
Lemma order_witness :
  let out := [Demo.priced 111; Demo.failed 222 "Failed to extract price info";
              Demo.priced 111] in
  map article out = filter (fun a => a ∈ map article out) [111; 222; 111; 333]
  /\ (forall out',
        Demo.parse Demo.one_per_worker Demo.healthy [0%nat; 1%nat]
          [111; 222; 111; 333] = Ok out' ->
        map article out' = map article out).
Proof.
  destruct (parse_articles_keeps_input_order (H0 := Demo.one_per_worker)
              (H1 := Demo.helpers) (H2 := Demo.site) Demo.healthy [1%nat; 0%nat] [0%nat; 1%nat] [111; 222; 111; 333]
              [Demo.priced 111; Demo.failed 222 "Failed to extract price info";
               Demo.priced 111])
    as [Hfirst Hsecond].
  { vm_compute. reflexivity. }
  split; [exact Hfirst|].
  intros out' Hrun. apply (Hsecond [[111]; [222]] out').
  - vm_compute. reflexivity.
  - simpl. apply perm_swap.
  - reflexivity.
  - exact Hrun.
Defined.

(** C2 (as amended) on the site: three identifiers, one per worker, two
    workers. *)
Lemma distribution_witness :
  OzonParser._distribute_articles (H0 := Demo.one_per_worker) [111; 222; 111]
  = Ok [[111]; [222]]
  /\ (forall out,
        Demo.parse Demo.one_per_worker Demo.healthy [0%nat; 1%nat]
          [111; 222; 111] = Ok out ->
        map article out
        = filter (fun a => a ∈ take 2 [111; 222; 111]) [111; 222; 111]).
Proof.
  destruct (distribution_and_capacity (H0 := Demo.one_per_worker)
              (H1 := Demo.helpers) (H2 := Demo.site) [111; 222; 111])
    as [_ Hlong].
  { simpl. lia. }
  destruct Hlong as (groups & Hgroups & -> & _ & Hout).
  { vm_compute. reflexivity. }
  split; [exact Hgroups|].
  intros out Hrun.
  apply (Hout ltac:(simpl; lia) Demo.healthy [0%nat; 1%nat] out);
    [reflexivity|exact Hrun].
Defined.

(** The page of item 222 is not JSON: its pipeline fails in every state. *)
Lemma pipeline_of_222_always_fails :
  pipeline_always_fails (H0 := Demo.three_retries) 222.
Proof.
  intros attempt self self' r Hrun.
  unfold OzonWorker.attempt_try, OzonWorker.retry_or_fail,
    OzonWorker.debug_reads in Hrun.
  unfold_monad. simpl in Hrun.
  repeat (case_step; simpl in * ); by simplify_eq.
Qed.

(** C3 on the site: item 222 with three retries. *)
Lemma retry_bound_witness :
  exists r self' logged,
    OzonWorker.parse_single_article (H0 := Demo.three_retries) 222
      (Demo.worker (Demo.session 0)) = (Ok r, self')
    /\ success r = false
    /\ OzonWorker.attempts_logged self'
       = OzonWorker.attempts_logged (Demo.worker (Demo.session 0)) ++ logged
    /\ (length logged <= 3)%nat.
Proof.
  apply (parse_single_article_retry_bound (H0 := Demo.three_retries)
           (H1 := Demo.helpers) (H2 := Demo.site) 222
           (Demo.worker (Demo.session 0))).
  - simpl. lia.
  - exact pipeline_of_222_always_fails.
Defined.

(** C4 (as amended) on the site: the second group's browser cannot
    start. *)
Lemma aborted_batch_witness :
  exists e',
    Demo.parse Demo.one_per_worker Demo.second_broken [1%nat; 0%nat]
      [111; 222] = Raise e'.
Proof.
  apply (worker_failure_aborts_batch (H0 := Demo.one_per_worker)
           (H1 := Demo.helpers) (H2 := Demo.site) Demo.second_broken
           [1%nat; 0%nat] [111; 222] [[111]; [222]] 1 [222]
           (mkExn "WebDriverException" "cannot start a browser")).
  - vm_compute. reflexivity.
  - vm_compute. discriminate.
  - simpl. apply perm_swap.
  - reflexivity.
  - reflexivity.
Defined.

(** C5 (as amended) on the site: 111 is scheduled once and asked for
    twice. *)
Lemma merged_duplicates_witness :
  let out := [Demo.priced 111; Demo.failed 222 "Failed to extract price info";
              Demo.priced 111] in
  Demo.parse Demo.one_per_worker Demo.healthy [0%nat; 1%nat] [111; 222; 111]
  = Ok out
  /\ (forall r1 r2,
        r1 ∈ out -> r2 ∈ out -> article r1 = article r2 -> r1 = r2).
Proof.
  assert (Demo.parse Demo.one_per_worker Demo.healthy [0%nat; 1%nat]
            [111; 222; 111]
          = Ok [Demo.priced 111;
                Demo.failed 222 "Failed to extract price info";
                Demo.priced 111]) as Hrun
    by (vm_compute; reflexivity).
  split; [exact Hrun|].
  apply (merged_duplicates_share_result (H0 := Demo.one_per_worker)
           (H1 := Demo.helpers) (H2 := Demo.site) Demo.healthy
           [0%nat; 1%nat] [111; 222; 111] [[111]; [222]]).
  - vm_compute. reflexivity.
  - vm_compute. discriminate.
  - exact Hrun.
Defined.

(** C6 on the site: a success and a failure. *)
Lemma well_formed_witness :
  Forall well_formed
    [Demo.priced 111; Demo.failed 222 "Failed to extract price info"].
Proof.
  apply (proj2 (article_results_well_formed (H0 := Demo.ten_per_worker)
                  (H1 := Demo.helpers) (H2 := Demo.site))
           Demo.healthy [] [111; 222]).
  vm_compute. reflexivity.
Defined.

(** C7 on the site: the payload of item 111. *)
Lemma extract_contract_witness :
  exists data widget_states web_price_value parsed,
    json_loads "{widgets of 111}" = Ok data
    /\ widget_states_of data = Some widget_states
    /\ web_price_of widget_states = Some web_price_value
    /\ parse_price_data web_price_value = Ok (Some parsed)
    /\ price_fields (@mkPriceInfo Demo.schemas 999 (Some "Widget"))
       = price_fields parsed.
Proof.
  destruct (extract_price_info_contract (H1 := Demo.helpers)
              "{widgets of 111}") as (_ & _ & _ & Hsome & _).
  apply Hsome. vm_compute. reflexivity.
Defined.

(** C9 on the site: three retries. *)
Lemma fallback_unreachable_witness :
  exists attempts,
    range 0 3 1 = Ok attempts
    /\ (OzonWorker.attempt_loop (H0 := Demo.three_retries) 222 attempts
          (Demo.worker (Demo.session 0))).1
       <> Ok OzonWorker.Exhausted.
Proof.
  destruct (max_retries_fallback_unreachable (H0 := Demo.three_retries)
              (H1 := Demo.helpers) (H2 := Demo.site) 222
              (Demo.worker (Demo.session 0)))
    as (attempts & Hrange & _ & Hloop & _).
  exists attempts. split; [exact Hrange|].
  apply Hloop. simpl. lia.
Defined.

(** C8, counterexample. On a page that is not JSON the call returns [None]
    and has handed two records to the logger: the log, empty before the
    call, is not empty after it. *)
Lemma extraction_logs_counterexample :
  Extractor.extract_price_info (H1 := Demo.stateless_helpers) "<html>"
    (Extractor.mkProcess (H1 := Demo.stateless_helpers)
       (Demo.worker (Demo.session 0)) tt [])
  = (Ok None,
     Extractor.mkProcess (H1 := Demo.stateless_helpers)
       (Demo.worker (Demo.session 0)) tt
       [Extractor.InfoExtracting; Extractor.WarningInvalidJson])
  /\ Extractor.logged
       (Extractor.extract_price_info (H1 := Demo.stateless_helpers) "<html>"
          (Extractor.mkProcess (H1 := Demo.stateless_helpers)
       (Demo.worker (Demo.session 0)) tt [])).2
     <> [].
Proof. split; [vm_compute; reflexivity|]. vm_compute. discriminate. Qed.

(** With a helper that keeps state the second call on the same payload
    need not return what the first one returned. *)
Example run_counting_validator :
  (first ← Extractor.extract_price_info (H1 := Demo.counting_helpers)
             "{widgets of 111}";
   second ← Extractor.extract_price_info (H1 := Demo.counting_helpers)
              "{widgets of 111}";
   mret (price_fields <$> first, price_fields <$> second))
    (Extractor.mkProcess (H1 := Demo.counting_helpers)
       (Demo.worker (Demo.session 0)) 0%nat [])
  = (Ok (Some 999, None),
     Extractor.mkProcess (H1 := Demo.counting_helpers)
       (Demo.worker (Demo.session 0)) 2%nat
       [Extractor.InfoExtracting; Extractor.InfoFoundWidgetStates 2;
        Extractor.InfoFoundWebPrice; Extractor.InfoFoundTitle "Widget";
        Extractor.InfoExtracted (@mkPriceInfo Demo.schemas 999 (Some "Widget"));
        Extractor.InfoExtracting; Extractor.WarningInvalidJson]).
Proof. vm_compute. reflexivity. Qed.

(** C8 on the site: the helpers of the site keep no state; the page of item
    111. *)
Lemma extract_effects_witness :
  helpers_are_functions (H1 := Demo.helpers)
    (H3 := Demo.stateless_helpers)
  /\ exists records,
      (forall p : Extractor.Process,
         Extractor.extract_price_info (H1 := Demo.stateless_helpers)
           "{widgets of 111}" p
         = (Ok (OzonWorker.extract_price_info "{widgets of 111}"),
            Extractor.mkProcess (Extractor.worker p) (Extractor.globals p)
              (Extractor.logged p ++ Extractor.InfoExtracting :: records)))
      /\ (forall p : Extractor.Process,
            (first ← Extractor.extract_price_info
                       (H1 := Demo.stateless_helpers) "{widgets of 111}";
             second ← Extractor.extract_price_info
                        (H1 := Demo.stateless_helpers) "{widgets of 111}";
             mret (first, second)) p
            = (Ok (OzonWorker.extract_price_info "{widgets of 111}",
                   OzonWorker.extract_price_info "{widgets of 111}"),
               Extractor.mkProcess (Extractor.worker p) (Extractor.globals p)
                 (Extractor.logged p
                  ++ (Extractor.InfoExtracting :: records)
                  ++ Extractor.InfoExtracting :: records))).
Proof.
  assert (helpers_are_functions (H1 := Demo.helpers)
            (H3 := Demo.stateless_helpers)) as Hfunctions.
  { by repeat split. }
  split; [exact Hfunctions|].
  exact (proj2 (extract_price_info_effects (H1 := Demo.helpers)
                  (H2 := Demo.site) (H3 := Demo.stateless_helpers)
                  "{widgets of 111}") Hfunctions).
Defined.

(** C10, counterexample. One identifier per worker and two workers, three
    identifiers: both futures hold a result list, so no group is lost, and
    the merge still drops 333, which was put in no group. *)
Lemma unscheduled_drop_counterexample :
  exists out,
    OzonParser._distribute_articles (H0 := Demo.one_per_worker)
      [111; 222; 333] = Ok [[111]; [222]]
    /\ futures_of (H0 := Demo.one_per_worker) Demo.healthy [[111]; [222]]
       = [Ok [Demo.priced 111];
          Ok [Demo.failed 222 "Failed to extract price info"]]
    /\ Demo.parse Demo.one_per_worker Demo.healthy [0%nat; 1%nat]
         [111; 222; 333] = Ok out
    /\ out = [Demo.priced 111; Demo.failed 222 "Failed to extract price info"]
    /\ 333 ∈ [111; 222; 333]
    /\ 333 ∉ map article out.
Proof.
  eexists.
  split; [vm_compute; reflexivity|].
  split; [vm_compute; reflexivity|].
  split; [vm_compute; reflexivity|].
  split; [reflexivity|].
  split; by apply (bool_decide_unpack _).
Qed.

(** C10 on the site: a worker with a driver and two identifiers; and the
    merge of two groups of one identifier, for an input of three. *)
Lemma merge_drop_witness :
  (exists out self',
     OzonWorker.parse_articles (H0 := Demo.ten_per_worker) [111; 222]
       (Demo.worker (Demo.session 0)) = (Ok out, self')
     /\ length out = 2%nat
     /\ forall i, article <$> out !! i = [111; 222] !! i)
  /\ (Forall (fun future => is_ok future = true)
        (futures_of (H0 := Demo.one_per_worker) Demo.healthy [[111]; [222]])
      /\ map article
           [Demo.priced 111; Demo.failed 222 "Failed to extract price info"]
         = filter (fun a => a ∈ concat [[111]; [222]]) [111; 222; 333]
      /\ forall a,
           a ∈ [111; 222; 333] ->
           a ∉ map article
                 [Demo.priced 111;
                  Demo.failed 222 "Failed to extract price info"]
           <-> a ∉ concat [[111]; [222]]).
Proof.
  destruct (merge_drops_only_unscheduled (H0 := Demo.ten_per_worker)
              (H1 := Demo.helpers) (H2 := Demo.site))
    as (Haligned & _ & _ & _).
  destruct (merge_drops_only_unscheduled (H0 := Demo.one_per_worker)
              (H1 := Demo.helpers) (H2 := Demo.site))
    as (_ & _ & Hmerge & _).
  split.
  - apply Haligned.
    + simpl. lia.
    + simpl. eauto.
  - apply (Hmerge Demo.healthy [0%nat; 1%nat] [111; 222; 333]
             [[111]; [222]]).
    + vm_compute. reflexivity.
    + vm_compute. discriminate.
    + reflexivity.
    + vm_compute. reflexivity.
Defined.

End Runs.

(** * Further properties *)

(** ** Work distribution: sizes, capacity, misconfiguration *)

Section DistributionMore.
Context `{Schemas} `{!Settings} `{!Helpers} `{!Selenium}.

Import OzonParser.

Lemma slices_below (total : nat) :
  1 <= MAX_ARTICLES_PER_WORKER ->
  (1 <= total)%nat ->
  ((slices_of total - 1) * Z.to_nat MAX_ARTICLES_PER_WORKER < total)%nat.
Proof.
  intros Hcap Htotal. unfold slices_of.
  assert (0 < MAX_ARTICLES_PER_WORKER) as Hpos by lia.
  assert (0 <= Z.of_nat total - 1) as Hnonneg by lia.
  pose proof (Z.mul_div_le (Z.of_nat total - 1) _ Hpos) as Hle.
  pose proof (Z.div_pos _ _ Hnonneg Hpos) as Hq.
  nia.
Qed.

Lemma length_chunk (articles : list Z) (k : nat) :
  length (chunk articles k)
  = Nat.min (Z.to_nat MAX_ARTICLES_PER_WORKER)
      (length articles - k * Z.to_nat MAX_ARTICLES_PER_WORKER).
Proof. unfold chunk. by rewrite length_take, length_drop. Qed.

(** X1. The groups of a list longer than one slice: there are
    [min(ceil(len / cap), max(1, MAX_WORKERS))] of them; none is empty, none
    holds more than [MAX_ARTICLES_PER_WORKER] identifiers and every group but
    the last holds exactly that many; together they hold
    [min(len, cap * max(1, MAX_WORKERS))] identifiers. *)
Theorem distribute_group_sizes (articles : list Z) (groups : list (list Z)) :
  1 <= MAX_ARTICLES_PER_WORKER ->
  MAX_ARTICLES_PER_WORKER < len articles ->
  _distribute_articles articles = Ok groups ->
  length groups = Nat.min (slices_of (length articles)) worker_cap
  /\ Z.of_nat (slices_of (length articles))
     = (len articles + MAX_ARTICLES_PER_WORKER - 1) / MAX_ARTICLES_PER_WORKER
  /\ (forall k group,
        groups !! k = Some group ->
        (1 <= length group <= Z.to_nat MAX_ARTICLES_PER_WORKER)%nat
        /\ ((S k < length groups)%nat ->
            length group = Z.to_nat MAX_ARTICLES_PER_WORKER))
  /\ length (concat groups)
     = Nat.min (length articles)
         (worker_cap * Z.to_nat MAX_ARTICLES_PER_WORKER).
Proof.
  intros Hcap Hlong Hgroups.
  rewrite distribute_chunks in Hgroups by done. injection Hgroups as <-.
  assert (1 <= length articles)%nat as Hsome by (unfold len in Hlong; lia).
  pose proof (slices_below (length articles) Hcap Hsome) as Hbelow.
  split; [by rewrite length_map, length_seq|]. split.
  { unfold slices_of, len.
    replace (Z.of_nat (length articles) + MAX_ARTICLES_PER_WORKER - 1)
      with (Z.of_nat (length articles) - 1 + 1 * MAX_ARTICLES_PER_WORKER)
      by lia.
    rewrite Z.div_add by lia.
    assert (0 <= (Z.of_nat (length articles) - 1) / MAX_ARTICLES_PER_WORKER)
      by (apply Z.div_pos; lia).
    lia. }
  split.
  - intros k group Hk. rewrite length_map, length_seq.
    change (map (chunk articles) ?l) with (chunk articles <$> l) in Hk.
    apply list_lookup_fmap_Some in Hk as (k' & -> & Hk').
    apply lookup_seq in Hk' as [-> Hlt]. simpl in *.
    rewrite length_chunk. split; [nia|]. intros Hnext. nia.
  - rewrite concat_groups by done. by rewrite length_take, Nat.min_comm.
Qed.

(** X2. A capacity that is not positive: with [MAX_ARTICLES_PER_WORKER = 0]
    and a non-empty input, or with a negative capacity and any input,
    [parse_articles] raises a [ValueError] before any worker is made. *)
Theorem nonpositive_capacity_raises (sessions : nat -> World)
    (completion : list nat) (articles : list Z) :
  MAX_ARTICLES_PER_WORKER <= 0 ->
  articles <> [] \/ MAX_ARTICLES_PER_WORKER < 0 ->
  exists msg,
    parse_articles sessions completion articles = Raise (ValueError msg).
Proof.
  intros Hcap Hcase. unfold parse_articles, _distribute_articles.
  assert (MAX_ARTICLES_PER_WORKER < len articles) as Hlong.
  { unfold len. destruct Hcase as [Hsome|Hneg]; [|lia].
    destruct articles; [done|simpl; lia]. }
  destruct (Z.leb_spec (len articles) MAX_ARTICLES_PER_WORKER); [lia|].
  unfold range.
  destruct (Z.eqb_spec MAX_ARTICLES_PER_WORKER 0) as [Hzero|Hnonzero];
    simpl; [eauto|].
  unfold range_len.
  destruct (Z.ltb_spec 0 MAX_ARTICLES_PER_WORKER); [lia|].
  destruct (Z.ltb_spec (len articles) 0); [unfold len in *; lia|].
  simpl. eauto.
Qed.

Lemma filter_none_in {A} (P : A -> Prop) `{!forall x, Decision (P x)}
    (l : list A) :
  (forall x, x ∈ l -> ~ P x) -> filter P l = [].
Proof.
  induction l as [|x l IH]; intros Hnone; [done|].
  rewrite filter_cons, decide_False by (apply Hnone, elem_of_cons; by left).
  apply IH. intros y Hy. apply Hnone, elem_of_cons. by right.
Qed.

Lemma filter_take_NoDup {A} `{!EqDecision A} (l : list A) (n : nat) :
  NoDup l -> filter (fun x => x ∈ take n l) l = take n l.
Proof.
  revert n. induction l as [|x l IH]; intros n Hnodup.
  - by rewrite take_nil.
  - apply NoDup_cons in Hnodup as [Hx Hnodup]. destruct n as [|n].
    + apply filter_none_in. intros y _. apply not_elem_of_nil.
    + simpl. rewrite filter_cons, decide_True by (apply elem_of_cons; by left).
      f_equal. etrans; [|by apply (IH n)].
      apply filter_ext_in. intros y Hy. rewrite elem_of_cons.
      split; [|by right]. intros [->|?]; [by destruct Hx|done].
Qed.

Lemma filter_take_all {A} `{!EqDecision A} (l : list A) (n : nat) :
  (length l <= n)%nat -> filter (fun x => x ∈ take n l) l = l.
Proof.
  intros Hall. rewrite take_ge by done. by apply filter_all_in.
Qed.

(** The identifiers of the output when two groups or more are formed. *)
Lemma multi_group_ids (sessions : nat -> World) (completion : list nat)
    (articles : list Z) (out : list ArticleResult) :
  1 <= MAX_ARTICLES_PER_WORKER ->
  2 <= MAX_WORKERS ->
  MAX_ARTICLES_PER_WORKER < len articles ->
  (forall groups,
     _distribute_articles articles = Ok groups ->
     completion ≡ₚ seq 0 (length groups)) ->
  parse_articles sessions completion articles = Ok out ->
  map article out
  = filter
      (fun a =>
         a ∈ take (Z.to_nat (MAX_ARTICLES_PER_WORKER * MAX_WORKERS)) articles)
      articles.
Proof.
  intros Hcap Hworkers Hlong Hperm Hrun.
  pose proof (distribute_chunks _ Hcap Hlong) as Hgroups.
  rewrite (parse_articles_ids _ _ _ _ _ Hgroups (Hperm _ Hgroups) Hrun).
  pose proof (two_slices (length articles) Hcap Hlong) as Hslices.
  unfold len at 1. rewrite length_map, length_seq.
  assert (2 <= worker_cap)%nat by (unfold worker_cap; lia).
  destruct (Z.eqb_spec
              (Z.of_nat (Nat.min (slices_of (length articles)) worker_cap))
              1); [lia|].
  rewrite concat_groups by done.
  replace (worker_cap * Z.to_nat MAX_ARTICLES_PER_WORKER)%nat
    with (Z.to_nat (MAX_ARTICLES_PER_WORKER * MAX_WORKERS));
    [done|]. unfold worker_cap. lia.
Qed.

(** X3. Pairwise distinct identifiers, two workers or more: when the call
    returns, the output holds a result for the first
    [MAX_ARTICLES_PER_WORKER * MAX_WORKERS] identifiers, in order, and for no
    other. *)
Theorem distinct_identifiers_ceiling (sessions : nat -> World)
    (completion : list nat) (articles : list Z) (out : list ArticleResult) :
  1 <= MAX_ARTICLES_PER_WORKER ->
  2 <= MAX_WORKERS ->
  MAX_ARTICLES_PER_WORKER < len articles ->
  NoDup articles ->
  (forall groups,
     _distribute_articles articles = Ok groups ->
     completion ≡ₚ seq 0 (length groups)) ->
  parse_articles sessions completion articles = Ok out ->
  map article out
  = take (Z.to_nat (MAX_ARTICLES_PER_WORKER * MAX_WORKERS)) articles
  /\ length out
     = Nat.min (Z.to_nat (MAX_ARTICLES_PER_WORKER * MAX_WORKERS))
         (length articles).
Proof.
  intros Hcap Hworkers Hlong Hnodup Hperm Hrun.
  assert (map article out
          = take (Z.to_nat (MAX_ARTICLES_PER_WORKER * MAX_WORKERS)) articles)
    as Hids.
  { rewrite (multi_group_ids _ _ _ _ Hcap Hworkers Hlong Hperm Hrun).
    by apply filter_take_NoDup. }
  split; [done|].
  by rewrite <- (length_map article), Hids, length_take.
Qed.

(** X4. Enough capacity: when the input has at most
    [MAX_ARTICLES_PER_WORKER * MAX_WORKERS] identifiers, or a single worker
    is allowed, a call that returns has one result per input position, the
    [i]-th for the [i]-th identifier. *)
Theorem enough_capacity_keeps_all (sessions : nat -> World)
    (completion : list nat) (articles : list Z) (out : list ArticleResult) :
  1 <= MAX_ARTICLES_PER_WORKER ->
  len articles <= MAX_ARTICLES_PER_WORKER * MAX_WORKERS \/ MAX_WORKERS <= 1 ->
  (forall groups,
     _distribute_articles articles = Ok groups ->
     completion ≡ₚ seq 0 (length groups)) ->
  parse_articles sessions completion articles = Ok out ->
  map article out = articles.
Proof.
  intros Hcap Hroom Hperm Hrun.
  destruct (Z.le_gt_cases (len articles) MAX_ARTICLES_PER_WORKER)
    as [Hshort|Hlong].
  - revert Hrun. unfold parse_articles, _distribute_articles.
    destruct (Z.leb_spec (len articles) MAX_ARTICLES_PER_WORKER); [|lia].
    simpl. intros Hrun. by apply worker_group_ok in Hrun as [? _].
  - assert (MAX_ARTICLES_PER_WORKER < len articles) as Hlong' by lia.
    destruct (Z.le_gt_cases MAX_WORKERS 1) as [Hone|Hmany].
    + destruct (single_group_takes_all sessions completion articles Hcap
                  Hlong' Hone) as [_ Hsingle].
      rewrite Hsingle in Hrun. by apply worker_group_ok in Hrun as [? _].
    + destruct Hroom as [Hroom|?]; [|lia].
      assert (2 <= MAX_WORKERS) as Hworkers by lia.
      rewrite (multi_group_ids _ _ _ _ Hcap Hworkers Hlong' Hperm Hrun).
      apply filter_take_all. unfold len in Hroom. lia.
Qed.

End DistributionMore.

(** ** The fetch worker: attempts, provenance of results *)

Section WorkerMore.
Context `{Schemas} `{!Settings} `{!Helpers} `{!Selenium}.

Import OzonWorker.

(** The log of the loop over the attempts [s, s+1, ...], and the attempt a
    returned result comes from. *)
Lemma attempt_loop_numbered (a : Z) (n s : nat) (self self' : t)
    (res : Res LoopExit) :
  (s + n)%nat = Z.to_nat MAX_RETRIES ->
  attempt_loop a (map Z.of_nat (seq s n)) self = (res, self') ->
  exists m,
    (m <= n)%nat
    /\ attempts_logged self'
       = attempts_logged self
         ++ map (fun k : nat => (a, Z.of_nat k + 1)) (seq s m)
    /\ match res with
       | Ok (Returned r) =>
           (1 <= m)%nat
           /\ (success r = false -> m = n)
           /\ exists self0 self1,
               attempt_once a (Z.of_nat (s + m - 1)) self0
               = (Ok (Return r), self1)
       | Ok Exhausted => n = 0%nat
       | Raise e => (1 <= m < n)%nat /\ RETRY_DELAY < 0
       end.
Proof.
  revert s self. induction n as [|n IH]; intros s self Hlast; simpl.
  - unfold mret, M_ret. intros [= <- <-]. exists 0%nat.
    split; [done|]. split; [by rewrite app_nil_r|done].
  - unfold mbind, M_bind.
    destruct (attempt_once a (Z.of_nat s) self) as [[step|e] self1] eqn:Honce;
      pose proof Honce as Hreturned;
      apply attempt_once_outcome in Honce as (Hd & Hl & Hres).
    + destruct step as [|r].
      * intros Hrest. destruct Hres as [Hmore _].
        apply IH in Hrest as (m & Hm & Hl' & Hres'); [|lia].
        exists (S m). split; [lia|]. split.
        { rewrite Hl', Hl, <- app_assoc. done. }
        destruct res as [[r|]|e]; [|lia|lia].
        destruct Hres' as (? & ? & self0 & self2 & Hfrom).
        split; [lia|]. split; [intros; f_equal; auto|].
        exists self0, self2.
        by replace (s + S m - 1)%nat with (S s + m - 1)%nat by lia.
      * unfold mret, M_ret. intros [= <- <-]. exists 1%nat.
        split; [lia|]. split; [done|].
        split; [lia|]. split.
        { intros Hfailed. destruct Hres as (_ & _ & Hkind).
          rewrite Hfailed in Hkind. lia. }
        exists self, self1.
        by replace (s + 1 - 1)%nat with s by lia.
    + intros [= <- <-]. exists 1%nat.
      split; [lia|]. split; [done|]. lia.
Qed.

(** The attempts of one call, as the loop over a worker's list needs
    them. *)
Lemma attempts_numbered_once (a : Z) (self self' : t) (r : ArticleResult) :
  parse_single_article a self = (Ok r, self') ->
  exists m,
    (m <= Z.to_nat MAX_RETRIES)%nat
    /\ attempts_logged self' = attempts_logged self ++ numbered_attempts a m
    /\ if success r then (1 <= m)%nat else m = Z.to_nat MAX_RETRIES.
Proof.
  unfold parse_single_article. rewrite range_unit_step.
  unfold mbind at 1, M_bind at 1, lift. unfold mbind, M_bind.
  destruct (attempt_loop a _ self) as [[exit|e] self1] eqn:Hloop; [|done].
  apply attempt_loop_numbered in Hloop as (m & Hm & Hl & Hres); [|done].
  destruct exit as [r'|]; unfold mret, M_ret; intros [= <- <-]; exists m;
    (split; [done|]); (split; [done|]).
  - destruct Hres as (? & Hfailed & _). destruct (success r'); auto.
  - simpl. lia.
Qed.

(** X5. [parse_single_article] numbers its attempts 1, 2, ... and logs
    nothing else under that line; it stops at the first attempt that
    returns, reports a failure only once all [MAX_RETRIES] attempts are
    made, leaves the driver of the worker in place, and raises only between
    two attempts, on a [RETRY_DELAY] that is negative. *)
Theorem attempts_numbered_until_return (a : Z) (self self' : t)
    (res : Res ArticleResult) :
  parse_single_article a self = (res, self') ->
  exists m,
    (m <= Z.to_nat MAX_RETRIES)%nat
    /\ attempts_logged self' = attempts_logged self ++ numbered_attempts a m
    /\ driver self' = driver self
    /\ match res with
       | Ok r =>
           if success r then (1 <= m)%nat else m = Z.to_nat MAX_RETRIES
       | Raise e => (1 <= m < Z.to_nat MAX_RETRIES)%nat /\ RETRY_DELAY < 0
       end.
Proof.
  intros Hrun.
  pose proof (parse_single_article_outcome _ _ _ _ Hrun) as [Hd _].
  revert Hrun. unfold parse_single_article. rewrite range_unit_step.
  unfold mbind at 1, M_bind at 1, lift. unfold mbind, M_bind.
  destruct (attempt_loop a _ self) as [[exit|e] self1] eqn:Hloop;
    apply attempt_loop_numbered in Hloop as (m & Hm & Hl & Hres); try done.
  - destruct exit as [r|]; unfold mret, M_ret; intros [= <- <-]; exists m;
      (split; [done|]); (split; [done|]); (split; [done|]).
    + destruct Hres as (? & Hfailed & _). destruct (success r); auto.
    + simpl. lia.
  - intros [= <- <-]. exists m. repeat split; try done; lia.
Qed.

(** What a pass through the [try] that returns a success has gone
    through. *)
Lemma attempt_try_success (a attempt : Z) (self self' : t)
    (r : ArticleResult) :
  attempt_try a attempt self = (Ok (Return r), self') ->
  success r = true ->
  exists url w1 w2 payload w3 parsed,
    build_ozon_api_url a = Ok url
    /\ navigate_to_url url (selenium_manager self) = (Ok true, w1)
    /\ debug_page_content w1 = (Ok tt, w2)
    /\ wait_for_json_response w2 = (Ok (Some payload), w3)
    /\ payload <> ""
    /\ extract_price_info payload = Some parsed
    /\ r = mkArticleResult a true (Some parsed) None
    /\ selenium_manager self' = w3.
Proof.
  intros Hrun Hsuccess. unfold attempt_try in Hrun. unfold_monad.
  simpl in Hrun.
  destruct (build_ozon_api_url a) as [url|e] eqn:Hurl; [|done].
  destruct (navigate_to_url url (selenium_manager self))
    as [[[|]|e] w1] eqn:Hnav; simpl in Hrun; [| |done].
  - destruct (debug_page_content w1) as [[u|e] w2] eqn:Hdebug;
      simpl in Hrun; [|done].
    destruct (wait_for_json_response w2) as [[page|e] w3] eqn:Hwait;
      simpl in Hrun; [|done].
    destruct (truthy_str page) eqn:Hpage; simpl in Hrun.
    + destruct page as [payload|]; [|done]. simpl in *.
      destruct (extract_price_info payload) as [parsed|] eqn:Hextract.
      * injection Hrun as <- <-.
        exists url, w1, w2, payload, w3, parsed.
        repeat split; try done.
        { by destruct u. }
        intros ->. done.
      * apply retry_or_fail_outcome in Hrun as [_ [-> _]]. done.
    + apply retry_or_fail_outcome in Hrun as [_ [-> _]]. done.
  - destruct (debug_reads _) as [[u|e] self1]; [|done].
    apply retry_or_fail_outcome in Hrun as [_ [-> _]]. done.
Qed.


(** A loop that is left by a [return] went through a number of attempts
    that ended in [continue], and then through the attempt that returned. *)
Lemma attempt_loop_returned_split (a : Z) (n s : nat) (self self' : t)
    (r : ArticleResult) :
  attempt_loop a (map Z.of_nat (seq s n)) self = (Ok (Returned r), self') ->
  exists (m : nat) (self0 : t),
    (m < n)%nat
    /\ attempt_loop a (map Z.of_nat (seq s m)) self = (Ok Exhausted, self0)
    /\ attempt_once a (Z.of_nat (s + m)) self0 = (Ok (Return r), self').
Proof.
  revert s self. induction n as [|n IH]; intros s self; simpl.
  - unfold_monad. done.
  - unfold mbind, M_bind.
    destruct (attempt_once a (Z.of_nat s) self) as [[[|r0]|e] self1]
      eqn:Honce; [| |done].
    + intros Hrest. apply IH in Hrest as (m & self0 & Hm & Hprefix & Hlast).
      exists (S m), self0. split; [lia|]. split.
      * simpl. unfold mbind, M_bind. by rewrite Honce.
      * by replace (s + S m)%nat with (S s + m)%nat by lia.
    + unfold mret, M_ret. intros [= <- <-]. exists 0%nat, self.
      split; [lia|]. split; [done|].
      by replace (s + 0)%nat with s by lia.
Qed.

(** X6. A successful result of [parse_single_article] was built, in this
    call, from the pipeline of its own identifier: after a number [m] of
    attempts that ended in [continue], fewer than [MAX_RETRIES], and that
    took the worker from [self] to [self0], the address built for the
    identifier was navigated to on the session of [self0], successfully;
    on the session this left, after [debug_page_content], a non-empty
    payload was received, which left the session that the worker has when
    the call returns; the [price_info] of the result is what
    [extract_price_info] gives for that payload, and the result has no
    [error]. *)
Theorem success_comes_from_payload (a : Z) (self self' : t)
    (r : ArticleResult) :
  parse_single_article a self = (Ok r, self') ->
  success r = true ->
  exists (m : nat) (self0 : t) url w1 w2 payload parsed,
    (m < Z.to_nat MAX_RETRIES)%nat
    /\ attempt_loop a (map Z.of_nat (seq 0 m)) self = (Ok Exhausted, self0)
    /\ build_ozon_api_url a = Ok url
    /\ navigate_to_url url (selenium_manager self0) = (Ok true, w1)
    /\ debug_page_content w1 = (Ok tt, w2)
    /\ wait_for_json_response w2 = (Ok (Some payload), selenium_manager self')
    /\ payload <> ""
    /\ extract_price_info payload = Some parsed
    /\ r = mkArticleResult a true (Some parsed) None.
Proof.
  intros Hrun Hsuccess. unfold parse_single_article in Hrun.
  rewrite range_unit_step in Hrun.
  unfold mbind, M_bind, lift in Hrun.
  destruct (attempt_loop a _ self) as [[[r0|]|e] self1] eqn:Hloop;
    [| |done].
  - unfold mret, M_ret in Hrun. injection Hrun as -> ->.
    apply attempt_loop_returned_split in Hloop
      as (m & self0 & Hm & Hprefix & Hlast).
    apply attempt_once_outcome in Hlast as (_ & _ & _ & _ & Htry).
    rewrite Hsuccess in Htry.
    apply attempt_try_success in Htry
      as (url & w1 & w2 & payload & w3 & parsed & ? & ? & ? & ? & ? & ? & ?
          & <-);
      [|done].
    by exists m, self0, url, w1, w2, payload, parsed.
  - unfold mret, M_ret in Hrun. injection Hrun as <- <-. done.
Qed.


Lemma parse_each_log (articles : list Z) (results : list ArticleResult)
    (self self' : t) (out : list ArticleResult) :
  parse_each articles results self = (Ok out, self') ->
  exists counts,
    length counts = length articles
    /\ attempts_logged self'
       = attempts_logged self
         ++ concat (zip_with numbered_attempts articles counts)
    /\ Forall (fun m => (Nat.min 1 (Z.to_nat MAX_RETRIES) <= m
                         <= Z.to_nat MAX_RETRIES)%nat) counts.
Proof.
  revert results self. induction articles as [|a rest IH];
    intros results self; simpl.
  - unfold mret, M_ret. intros [= <- <-]. exists [].
    split; [done|]. split; [by rewrite app_nil_r|done].
  - unfold mbind, M_bind.
    destruct (parse_single_article a self) as [[r|e] self1] eqn:Hone; [|done].
    apply attempts_numbered_once in Hone as (m & Hm & Hl & Hkind).
    intros Hrest. apply IH in Hrest as (counts & Hlen & Hl' & Hall).
    exists (m :: counts). split; [simpl; lia|]. split.
    + simpl. by rewrite Hl', Hl, <- app_assoc.
    + constructor; [|done]. cbv beta. revert Hkind Hm.
      destruct (Z.to_nat MAX_RETRIES), (success r); lia.
Qed.

(** X8. A worker parses its identifiers one after the other in the order
    given: its log is, identifier by identifier, the attempts 1, 2, ... of
    that identifier, at most [MAX_RETRIES] of them and at least one when
    [MAX_RETRIES >= 1]; no attempt on one identifier comes between the
    attempts on another. *)
Theorem worker_parses_in_sequence (articles : list Z) (self self' : t)
    (out : list ArticleResult) :
  parse_articles articles self = (Ok out, self') ->
  exists counts,
    length counts = length articles
    /\ attempts_logged self'
       = attempts_logged self
         ++ concat (zip_with numbered_attempts articles counts)
    /\ Forall (fun m => (Nat.min 1 (Z.to_nat MAX_RETRIES) <= m
                         <= Z.to_nat MAX_RETRIES)%nat) counts.
Proof.
  unfold parse_articles, get_driver, lift, mbind, M_bind.
  destruct (driver self); [|done]. apply parse_each_log.
Qed.

End WorkerMore.

(** ** The life of a worker: start, parse, close *)

Section LifecycleMore.
Context `{Schemas} `{!Settings} `{!Helpers} `{!Selenium}.

Import OzonParser.

(** [_parse_worker_group] step by step. *)
Lemma worker_group_steps (w : World) (articles : list Z) :
  _parse_worker_group w articles
  = match setup_driver w with
    | (Raise e, w1) =>
        match (close_manager w1).1 with
        | Ok _ => Raise e
        | Raise e' => Raise e'
        end
    | (Ok d, w1) =>
        match OzonWorker.parse_articles articles (OzonWorker.mk w1 d []) with
        | (res, self1) =>
            match (close_manager (OzonWorker.selenium_manager self1)).1 with
            | Ok _ => res
            | Raise e' => Raise e'
            end
        end
    end.
Proof.
  unfold _parse_worker_group, OzonWorker.try_finally, mbind,
    OzonWorker.M_bind.
  rewrite initialize_outcome. simpl.
  destruct (setup_driver w) as [[d|e] w1]; simpl.
  - destruct (OzonWorker.parse_articles articles _) as [res self1].
    unfold OzonWorker.close, OzonWorker.on_session.
    by destruct (close_manager _) as [[u|e] w2].
  - unfold OzonWorker.close, OzonWorker.on_session. simpl.
    by destruct (close_manager w1) as [[u|e'] w2].
Qed.

(** X9. A worker that cannot start: when [setup_driver] raises and the
    manager then closes, [_parse_worker_group] raises that same exception;
    when [setup_driver] returns no driver without raising, it raises
    [RuntimeError("Worker not initialized")]. Either way no identifier is
    parsed. [_parse_with_single_worker] does the same. *)
Theorem worker_that_cannot_start (w w1 : World) (articles : list Z) :
  (close_manager w1).1 = Ok tt ->
  (forall e,
     setup_driver w = (Raise e, w1) ->
     _parse_worker_group w articles = Raise e
     /\ _parse_with_single_worker w articles = Raise e)
  /\ (setup_driver w = (Ok None, w1) ->
      _parse_worker_group w articles
      = Raise (RuntimeError "Worker not initialized")
      /\ _parse_with_single_worker w articles
         = Raise (RuntimeError "Worker not initialized")).
Proof.
  intros Hclose. split.
  - intros e Hsetup.
    assert (_parse_worker_group w articles = Raise e) as Hgroup
      by (by rewrite worker_group_steps, Hsetup, Hclose).
    split; exact Hgroup.
  - intros Hsetup.
    assert (_parse_worker_group w articles
            = Raise (RuntimeError "Worker not initialized")) as Hgroup
      by (rewrite worker_group_steps, Hsetup; simpl; by rewrite Hclose).
    split; exact Hgroup.
Qed.

(** X10. A manager whose [close()] raises: whatever the worker did, started
    or not, with results or not, [_parse_worker_group] raises the exception
    of [close()]; the results are lost. *)
Theorem close_failure_replaces_outcome (w : World) (articles : list Z)
    (e : Exn) :
  (forall w', (close_manager w').1 = Raise e) ->
  _parse_worker_group w articles = Raise e
  /\ _parse_with_single_worker w articles = Raise e.
Proof.
  intros Hclose.
  assert (_parse_worker_group w articles = Raise e) as Hgroup.
  { rewrite worker_group_steps.
    destruct (setup_driver w) as [[d|e0] w1].
    - destruct (OzonWorker.parse_articles articles _) as [res self1].
      by rewrite Hclose.
    - by rewrite Hclose. }
  split; exact Hgroup.
Qed.

(** X11. An empty input still takes the single-worker path when the
    capacity is not negative: a browser is started and closed for nothing.
    The call returns the empty list when the browser starts and the manager
    closes, and raises what [setup_driver] raises when it does not start. *)
Theorem empty_input_starts_a_worker (sessions : nat -> World)
    (completion : list nat) :
  0 <= MAX_ARTICLES_PER_WORKER ->
  parse_articles sessions completion []
  = _parse_with_single_worker (sessions 0%nat) []
  /\ (starts (sessions 0%nat) -> closes ->
      parse_articles sessions completion [] = Ok [])
  /\ (forall e w1,
        setup_driver (sessions 0%nat) = (Raise e, w1) ->
        (close_manager w1).1 = Ok tt ->
        parse_articles sessions completion [] = Raise e).
Proof.
  intros Hcap.
  assert (parse_articles sessions completion []
          = _parse_with_single_worker (sessions 0%nat) []) as Hsingle.
  { unfold parse_articles, _distribute_articles.
    change (len (@nil Z)) with 0.
    by destruct (Z.leb_spec 0 MAX_ARTICLES_PER_WORKER); [|lia]. }
  split; [done|]. rewrite Hsingle.
  change (_parse_with_single_worker (sessions 0%nat) [])
    with (_parse_worker_group (sessions 0%nat) []).
  rewrite worker_group_steps. split.
  - intros (d & w' & ->) Hclose. simpl. by rewrite Hclose.
  - intros e w1 -> Hclose. by rewrite Hclose.
Qed.

End LifecycleMore.

(** ** The merge and the collecting loop *)

Section MergeMore.
Context `{Schemas} `{!Settings} `{!Helpers} `{!Selenium}.

Import OzonParser.

Lemma collect_raise_from (completed : list (Res (list ArticleResult)))
    (acc : list ArticleResult) (e : Exn) :
  collect completed acc = Raise e -> Raise e ∈ completed.
Proof.
  revert acc. induction completed as [|future rest IH]; intros acc; simpl.
  - done.
  - destruct future as [rs|e0]; simpl.
    + intros Hrest. apply elem_of_cons. right. by eapply IH.
    + intros [= ->]. apply elem_of_cons. by left.
Qed.

Lemma distribute_short (articles : list Z) :
  len articles <= MAX_ARTICLES_PER_WORKER ->
  _distribute_articles articles = Ok [articles].
Proof.
  intros Hshort. unfold _distribute_articles.
  by destruct (Z.leb_spec (len articles) MAX_ARTICLES_PER_WORKER); [|lia].
Qed.

(** With a positive capacity [_distribute_articles] returns groups, and at
    least one. *)
Lemma distribute_some_group (articles : list Z) :
  1 <= MAX_ARTICLES_PER_WORKER ->
  exists group groups,
    _distribute_articles articles = Ok (group :: groups).
Proof.
  intros Hcap.
  destruct (Z.le_gt_cases (len articles) MAX_ARTICLES_PER_WORKER)
    as [Hshort|Hlong].
  - rewrite distribute_short by done. eauto.
  - assert (MAX_ARTICLES_PER_WORKER < len articles) as Hlong' by lia.
    rewrite distribute_chunks by done.
    pose proof (two_slices (length articles) Hcap Hlong').
    destruct (Nat.min (slices_of (length articles)) worker_cap) as [|m]
      eqn:Hmin; [unfold worker_cap in Hmin; lia|].
    simpl. eauto.
Qed.

(** X12. With a positive capacity the coordinator raises nothing of its
    own: an exception of [parse_articles] is the exception that the worker
    of one of the groups (or the inline worker, on the whole input)
    raised. *)
Theorem batch_exception_is_a_workers (sessions : nat -> World)
    (completion : list nat) (articles : list Z) (e : Exn) :
  1 <= MAX_ARTICLES_PER_WORKER ->
  parse_articles sessions completion articles = Raise e ->
  exists k group,
    _parse_worker_group (sessions k) group = Raise e
    /\ ((k = 0%nat /\ group = articles)
        \/ exists groups,
            _distribute_articles articles = Ok groups
            /\ groups !! k = Some group).
Proof.
  intros Hcap. unfold parse_articles.
  destruct (distribute_some_group articles Hcap) as (g0 & gs & Hgroups).
  rewrite Hgroups. remember (g0 :: gs) as groups eqn:Hcons.
  simpl. destruct (len groups =? 1).
  - intros Hrun. exists 0%nat, articles. split; [exact Hrun|by left].
  - unfold _parse_with_multiple_workers.
    destruct (Z.leb_spec (len groups) 0) as [Hnone|_].
    { subst groups. unfold len in Hnone. simpl in Hnone. lia. }
    fold (futures_of sessions groups).
    destruct (collect _ []) as [all_results|e1] eqn:Hcollect; simpl;
      [done|].
    intros [= ->]. apply collect_raise_from in Hcollect.
    apply as_completed_sound in Hcollect.
    apply future_of_group in Hcollect as (k & group & Hgroup & Hrun).
    exists k, group. split; [done|]. right. eauto.
Qed.

(** X13. One group fails, the others do not: in a call with several groups
    where the worker of group [k] raises [e] and the workers of all other
    groups return, [parse_articles] raises [e], in whatever order the
    workers complete. *)
Theorem single_failure_is_reported (sessions : nat -> World)
    (completion : list nat) (articles : list Z) (groups : list (list Z))
    (k : nat) (group : list Z) (e : Exn) :
  _distribute_articles articles = Ok groups ->
  len groups <> 1 ->
  completion ≡ₚ seq 0 (length groups) ->
  groups !! k = Some group ->
  _parse_worker_group (sessions k) group = Raise e ->
  (forall j other,
     j <> k -> groups !! j = Some other ->
     is_ok (_parse_worker_group (sessions j) other) = true) ->
  parse_articles sessions completion articles = Raise e.
Proof.
  intros Hgroups Hmany Hperm Hgroup Hfails Hothers.
  unfold parse_articles. rewrite Hgroups. simpl.
  destruct (Z.eqb_spec (len groups) 1); [done|].
  unfold _parse_with_multiple_workers.
  destruct (Z.leb_spec (len groups) 0) as [Hnone|_].
  { apply lookup_lt_Some in Hgroup. unfold len in Hnone. lia. }
  fold (futures_of sessions groups).
  assert (Raise e ∈ as_completed completion (futures_of sessions groups))
    as Hin.
  { rewrite as_completed_perm.
    - apply future_of_group. eauto.
    - unfold futures_of. by rewrite length_imap. }
  destruct (collect_raises _ [] _ Hin) as [e' Hcollect].
  rewrite Hcollect. simpl. f_equal.
  apply collect_raise_from, as_completed_sound in Hcollect.
  apply future_of_group in Hcollect as (j & other & Hother & Hrun).
  destruct (decide (j = k)) as [->|Hne].
  - rewrite Hgroup in Hother. injection Hother as <-. congruence.
  - specialize (Hothers j other Hne Hother). by rewrite <- Hrun in Hothers.
Qed.

Lemma foldl_insert_untouched (results : list ArticleResult)
    (d : gmap Z ArticleResult) (a : Z) :
  a ∉ map article results ->
  foldl (fun d result => <[article result := result]> d) d results !! a
  = d !! a.
Proof.
  revert d. induction results as [|r0 results IH]; intros d Hfresh; [done|].
  simpl in *. apply not_elem_of_cons in Hfresh as [Hne Hfresh].
  rewrite IH by done. by rewrite lookup_insert_ne.
Qed.

(** X14. In the merge the last result of an identifier wins: when no result
    after [r] carries the identifier of [r], the dictionary maps that
    identifier to [r], every position of the original list that holds it
    gets [r], and the results that came before for the same identifier are
    not in the output. *)
Theorem merge_last_result_wins (earlier later : list ArticleResult)
    (r : ArticleResult) (original_articles : list Z) :
  article r ∉ map article later ->
  result_dict_of (earlier ++ r :: later) !! article r = Some r
  /\ (forall r',
        r' ∈ _sort_results_by_original_order (earlier ++ r :: later)
               original_articles ->
        article r' = article r -> r' = r)
  /\ (article r ∈ original_articles ->
      r ∈ _sort_results_by_original_order (earlier ++ r :: later)
            original_articles).
Proof.
  intros Hlast.
  assert (result_dict_of (earlier ++ r :: later) !! article r = Some r)
    as Hdict.
  { unfold result_dict_of. rewrite foldl_app. simpl.
    rewrite foldl_insert_untouched by done. apply lookup_insert_eq. }
  split; [done|]. split.
  - intros r' Hin Hid. apply sort_results_by_value in Hin as [Hlook _].
    rewrite Hid in Hlook. congruence.
  - intros Hin. unfold _sort_results_by_original_order.
    apply list_elem_of_omap. eauto.
Qed.

Lemma omap_ext_in {A B} (f g : A -> option B) (l : list A) :
  (forall x, x ∈ l -> f x = g x) -> omap f l = omap g l.
Proof.
  induction l as [|x l IH]; intros Hext; [done|].
  assert (omap f l = omap g l) as Hrest.
  { apply IH. intros y Hy. apply Hext, elem_of_cons. by right. }
  simpl. rewrite (Hext x) by (apply elem_of_cons; by left).
  destruct (g x); [f_equal|]; exact Hrest.
Qed.

(** X15. Merging is idempotent: merging the merged list once more against
    the same original list gives the merged list. *)
Theorem merge_idempotent (results : list ArticleResult)
    (original_articles : list Z) :
  _sort_results_by_original_order
    (_sort_results_by_original_order results original_articles)
    original_articles
  = _sort_results_by_original_order results original_articles.
Proof.
  unfold _sort_results_by_original_order at 1 3. cbv zeta.
  apply omap_ext_in. intros a Ha.
  set (out := _sort_results_by_original_order results original_articles).
  assert (forall r, result_dict_of results !! a = Some r -> r ∈ out)
    as Hkept.
  { intros r Hr. apply list_elem_of_omap. eauto. }
  destruct (result_dict_of results !! a) as [r|] eqn:Hlook.
  - assert (r ∈ out) as Hr by (by apply Hkept).
    pose proof (result_dict_of_lookup _ _ _ Hlook) as [_ Hid].
    destruct (result_dict_of out !! a) as [r'|] eqn:Hlook'.
    + apply result_dict_of_lookup in Hlook' as [Hr' Hid'].
      apply sort_results_by_value in Hr' as [Hr' _].
      rewrite Hid' in Hr'. congruence.
    + assert (is_Some (result_dict_of out !! a)) as [? ?]; [|congruence].
      apply result_dict_of_is_Some, elem_of_map. eauto.
  - destruct (result_dict_of out !! a) as [r'|] eqn:Hlook'; [|done].
    apply result_dict_of_lookup in Hlook' as [Hr' Hid'].
    apply sort_results_by_value in Hr' as [Hr' _].
    rewrite Hid' in Hr'. congruence.
Qed.

Lemma NoDup_map_inj_in {A B} (f : A -> B) (l : list A) (x y : A) :
  NoDup (map f l) -> x ∈ l -> y ∈ l -> f x = f y -> x = y.
Proof.
  induction l as [|z l IH]; simpl; intros Hnodup Hx Hy Heq.
  - by apply elem_of_nil in Hx.
  - apply NoDup_cons in Hnodup as [Hz Hnodup].
    apply elem_of_cons in Hx as [->|Hx]; apply elem_of_cons in Hy as [->|Hy];
      [done| | |by apply IH].
    + destruct Hz. rewrite Heq. apply elem_of_map. eauto.
    + destruct Hz. rewrite <- Heq. apply elem_of_map. eauto.
Qed.

(** With one result per identifier, the dictionary holds exactly the
    results. *)
Lemma result_dict_NoDup (results : list ArticleResult) (a : Z)
    (r : ArticleResult) :
  NoDup (map article results) ->
  result_dict_of results !! a = Some r <-> r ∈ results /\ article r = a.
Proof.
  intros Hnodup. split; [apply result_dict_of_lookup|].
  intros [Hr Hid].
  assert (is_Some (result_dict_of results !! a)) as [r' Hlook].
  { apply result_dict_of_is_Some, elem_of_map. eauto. }
  pose proof (result_dict_of_lookup _ _ _ Hlook) as [Hr' Hid'].
  rewrite Hlook. f_equal.
  apply (NoDup_map_inj_in article results); congruence.
Qed.

Lemma result_dict_perm (results1 results2 : list ArticleResult) :
  results1 ≡ₚ results2 ->
  NoDup (map article results1) ->
  result_dict_of results1 = result_dict_of results2.
Proof.
  intros Hperm Hnodup.
  assert (NoDup (map article results2)) as Hnodup2.
  { change (NoDup (article <$> results2)). rewrite <- Hperm. exact Hnodup. }
  apply map_eq. intros a. apply option_eq. intros r.
  rewrite !result_dict_NoDup by done. by rewrite Hperm.
Qed.

Lemma concat_Permutation {A} (ls1 ls2 : list (list A)) :
  ls1 ≡ₚ ls2 -> concat ls1 ≡ₚ concat ls2.
Proof.
  induction 1 as [|l ls1 ls2 _ IH|l1 l2 ls|ls1 ls2 ls3 _ IH1 _ IH2]; simpl.
  - done.
  - by rewrite IH.
  - rewrite !(assoc (++)). by rewrite (comm (++) l2 l1).
  - by rewrite IH1.
Qed.

Lemma collect_oks (rss : list (list ArticleResult))
    (acc : list ArticleResult) :
  collect (map Ok rss) acc = Ok (acc ++ concat rss).
Proof.
  revert acc. induction rss as [|rs rss IH]; intros acc; simpl.
  - by rewrite app_nil_r.
  - rewrite IH. by rewrite <- app_assoc.
Qed.

(** When every future holds results, they are the results of the groups,
    group by group. *)
Lemma futures_all_ok (sessions : nat -> World) (groups : list (list Z)) :
  Forall (fun future => is_ok future = true) (futures_of sessions groups) ->
  exists rss,
    futures_of sessions groups = map Ok rss
    /\ map (map article) rss = groups.
Proof.
  revert sessions. induction groups as [|group groups IH]; intros sessions.
  - intros _. by exists [].
  - unfold futures_of. simpl. intros [Hok Hall]%Forall_cons.
    destruct (_parse_worker_group (sessions 0%nat) group) as [rs|e] eqn:Hrun;
      [|done].
    destruct (IH (sessions ∘ S)) as (rss & Hrss & Hids).
    { exact Hall. }
    exists (rs :: rss). simpl. split.
    + f_equal. exact Hrss.
    + apply worker_group_ok in Hrun as [-> _]. by rewrite Hids.
Qed.

(** X16. Pairwise distinct scheduled identifiers: the result of
    [parse_articles] does not depend on the order in which the workers
    complete. If the call returns [out] for one order of completion, it
    returns the same [out] for every other. *)
Theorem distinct_identifiers_order_free (sessions : nat -> World)
    (completion completion' : list nat) (articles : list Z)
    (groups : list (list Z)) (out : list ArticleResult) :
  _distribute_articles articles = Ok groups ->
  NoDup (concat groups) ->
  completion ≡ₚ seq 0 (length groups) ->
  completion' ≡ₚ seq 0 (length groups) ->
  parse_articles sessions completion articles = Ok out ->
  parse_articles sessions completion' articles = Ok out.
Proof.
  intros Hgroups Hnodup Hperm Hperm'. unfold parse_articles.
  rewrite Hgroups. simpl. destruct (len groups =? 1); [done|].
  unfold _parse_with_multiple_workers.
  destruct (len groups <=? 0); [done|].
  fold (futures_of sessions groups).
  destruct (collect (as_completed completion _) [])
    as [all_results|e] eqn:Hcollect; simpl; [|done].
  intros [= <-].
  apply collect_ok in Hcollect as (rss1 & Hfutures1 & ->). simpl.
  assert (length (futures_of sessions groups) = length groups) as Hlen
    by (unfold futures_of; by rewrite length_imap).
  pose proof (as_completed_perm completion (futures_of sessions groups))
    as Hsame. rewrite Hlen in Hsame. specialize (Hsame Hperm).
  pose proof (as_completed_perm completion' (futures_of sessions groups))
    as Hsame'. rewrite Hlen in Hsame'. specialize (Hsame' Hperm').
  destruct (futures_all_ok sessions groups) as (rss0 & Hfutures0 & Hids).
  { rewrite <- Hsame, Hfutures1. apply Forall_forall.
    by intros f (rs & -> & _)%elem_of_map. }
  rewrite Hfutures1 in Hsame. rewrite Hfutures0 in Hsame.
  assert (as_completed completion' (futures_of sessions groups)
          ≡ₚ map Ok rss0) as Hsame0 by (by rewrite Hsame', Hfutures0).
  apply Permutation_map_inv in Hsame as (rss1' & Heq1 & Hperm1).
  apply (inj (fmap Ok)) in Heq1 as <-.
  apply Permutation_map_inv in Hsame0 as (rss2 & Heq2 & Hperm2).
  rewrite Heq2, collect_oks. simpl. f_equal.
  unfold _sort_results_by_original_order.
  rewrite (result_dict_perm (concat rss2) (concat rss1)); [done| |].
  - apply concat_Permutation. by rewrite <- Hperm1, Hperm2.
  - rewrite concat_map.
    assert (map (map article) rss2 ≡ₚ groups) as Hsched.
    { rewrite <- Hids.
      change (map article <$> rss2 ≡ₚ map article <$> rss0).
      by rewrite Hperm2. }
    by rewrite (concat_Permutation _ _ Hsched).
Qed.

Lemma output_not_longer (sessions : nat -> World) (completion : list nat)
    (articles : list Z) (out : list ArticleResult) :
  parse_articles sessions completion articles = Ok out ->
  (length out <= length articles)%nat.
Proof.
  unfold parse_articles.
  destruct (_distribute_articles articles) as [groups|e]; simpl; [|done].
  destruct (len groups =? 1).
  - intros Hrun. apply worker_group_ok in Hrun as [<- _].
    by rewrite length_map.
  - intros Hrun. apply multiple_workers_ok in Hrun as (all_results & -> & _).
    rewrite <- (length_map article), sort_results_articles.
    apply length_filter.
Qed.

(** X19. Failures of identifiers do not fail the batch: with a positive
    capacity, a [RETRY_DELAY] that is a length of time, browsers that start
    and managers that close, [parse_articles] returns for every input and
    every order of completion, whatever the pages give, with no more results
    than identifiers. *)
Theorem healthy_batch_returns (sessions : nat -> World)
    (completion : list nat) (articles : list Z) :
  1 <= MAX_ARTICLES_PER_WORKER ->
  0 <= RETRY_DELAY ->
  closes ->
  (forall k, starts (sessions k)) ->
  exists out,
    parse_articles sessions completion articles = Ok out
    /\ (length out <= length articles)%nat.
Proof.
  intros Hcap Hdelay Hclose Hstart.
  destruct (parse_articles_returns sessions completion articles Hcap Hdelay
              Hclose Hstart) as [out Hrun].
  exists out. split; [done|]. by eapply output_not_longer.
Qed.

End MergeMore.

(** ** The payload extractor: the title *)

Section ExtractorMore.
Context `{Schemas} `{!Settings} `{!Helpers} `{!Selenium}.

Import OzonWorker.

(** X17. The title of an extracted [PriceInfo]: a title that the lookup
    finds (not [None], not empty) replaces the title that [parse_price_data]
    set, and otherwise that title is kept; the price fields are those parsed
    in both cases. *)
Theorem found_title_replaces_title (json_content : string)
    (result : PriceInfo) :
  extract_price_info json_content = Some result ->
  exists data widget_states web_price_value parsed found_title,
    json_loads json_content = Ok data
    /\ widget_states_of data = Some widget_states
    /\ web_price_of widget_states = Some web_price_value
    /\ parse_price_data web_price_value = Ok (Some parsed)
    /\ find_product_title widget_states = Ok found_title
    /\ price_fields result = price_fields parsed
    /\ title result
       = (if truthy_str found_title then found_title else title parsed).
Proof.
  intros (data & ws & v & parsed & found & _ & ? & ? & ? & ? & ? & ->)
    %extract_price_info_Some.
  exists data, ws, v, parsed, found. repeat split; try done.
  - by destruct (truthy_str found).
  - by destruct (truthy_str found).
Qed.

(** X18. A title lookup that raises discards a parsed price: with the
    payload valid, the price entry found and the price parsed, an exception
    of [find_product_title] makes [extract_price_info] return [None]. *)
Theorem title_lookup_failure_discards_price (json_content : string)
    (data widget_states web_price_value : json) (parsed : PriceInfo)
    (e : Exn) :
  is_valid_json_response json_content = Ok true ->
  json_loads json_content = Ok data ->
  widget_states_of data = Some widget_states ->
  web_price_of widget_states = Some web_price_value ->
  parse_price_data web_price_value = Ok (Some parsed) ->
  find_product_title widget_states = Raise e ->
  extract_price_info json_content = None.
Proof.
  intros Hvalid Hdata Hws Hv Hparsed Htitle.
  destruct (extract_price_info json_content) as [result|] eqn:Hextract;
    [|done].
  apply extract_price_info_Some in Hextract
    as (data' & ws' & v' & p' & t & _ & Hdata' & Hws' & _ & _ & Htitle' & _).
  rewrite Hdata in Hdata'. injection Hdata' as <-.
  rewrite Hws in Hws'. injection Hws' as <-. congruence.
Qed.

End ExtractorMore.

(** ** Further runs on the concrete site *)

Section MoreRuns.

(** With the same identifier scheduled in two groups, the results do depend
    on the order of completion: the group that completes last wins. *)
Example run_duplicate_across_groups :
  Demo.parse Demo.one_per_worker
    (fun k => Demo.session (1 - k)) [0%nat; 1%nat] [111; 111]
  = Ok [Demo.priced 111; Demo.priced 111]
  /\ Demo.parse Demo.one_per_worker
       (fun k => Demo.session (1 - k)) [1%nat; 0%nat] [111; 111]
     = Ok [Demo.failed 111 "Failed to navigate to URL";
           Demo.failed 111 "Failed to navigate to URL"].
Proof. split; vm_compute; reflexivity. Qed.

(** X1 on the site: 25 identifiers, ten per worker, two workers. *)
Lemma group_sizes_witness :
  let groups := [map Z.of_nat (seq 0 10); map Z.of_nat (seq 10 10)] in
  length groups = 2%nat /\ length (concat groups) = 20%nat.
Proof.
  destruct (distribute_group_sizes (H0 := Demo.ten_per_worker)
              (map Z.of_nat (seq 0 25))
              [map Z.of_nat (seq 0 10); map Z.of_nat (seq 10 10)])
    as (Hcount & _ & _ & Htotal).
  - simpl. lia.
  - vm_compute. reflexivity.
  - vm_compute. reflexivity.
  - split; [exact Hcount|exact Htotal].
Defined.

(** X2 on the site: a capacity of zero. *)
Lemma nonpositive_capacity_witness :
  exists msg,
    Demo.parse (Demo.settings 0 2 1) Demo.healthy [] [111]
    = Raise (ValueError msg).
Proof.
  apply (nonpositive_capacity_raises (H := Demo.schemas)
           (H0 := Demo.settings 0 2 1) (H1 := Demo.helpers)
           (H2 := Demo.site) Demo.healthy [] [111]).
  - simpl. lia.
  - by left.
Defined.

(** X3 on the site: three distinct identifiers, room for two. *)
Lemma distinct_ceiling_witness :
  let out := [Demo.priced 111; Demo.failed 222 "Failed to extract price info"]
  in
  map article out = take 2 [111; 222; 333] /\ length out = 2%nat.
Proof.
  apply (distinct_identifiers_ceiling (H := Demo.schemas)
           (H0 := Demo.one_per_worker) (H1 := Demo.helpers)
           (H2 := Demo.site) Demo.healthy [0%nat; 1%nat] [111; 222; 333]).
  - simpl. lia.
  - simpl. lia.
  - vm_compute. reflexivity.
  - apply (bool_decide_unpack _). vm_compute. exact I.
  - intros groups [= <-]. reflexivity.
  - vm_compute. reflexivity.
Defined.

(** X4 on the site: two identifiers, room for twenty. *)
Lemma enough_capacity_witness :
  map article
    [Demo.priced 111; Demo.failed 222 "Failed to extract price info"]
  = [111; 222].
Proof.
  apply (enough_capacity_keeps_all (H := Demo.schemas)
           (H0 := Demo.ten_per_worker) (H1 := Demo.helpers)
           (H2 := Demo.site) Demo.healthy [0%nat] [111; 222]).
  - simpl. lia.
  - left. vm_compute. discriminate.
  - intros groups [= <-]. reflexivity.
  - vm_compute. reflexivity.
Defined.

(** X5 on the site: item 222, three retries. *)
Lemma attempts_numbered_witness :
  let run :=
    OzonWorker.parse_single_article (H := Demo.schemas)
      (H0 := Demo.three_retries) (H1 := Demo.helpers) (H2 := Demo.site)
      222 (Demo.worker (Demo.session 0)) in
  exists m,
    (m <= 3)%nat
    /\ OzonWorker.attempts_logged run.2
       = OzonWorker.attempts_logged (Demo.worker (Demo.session 0))
         ++ numbered_attempts 222 m
    /\ OzonWorker.driver run.2
       = OzonWorker.driver (Demo.worker (Demo.session 0))
    /\ match run.1 with
       | Ok r => if success r then (1 <= m)%nat else m = 3%nat
       | Raise e => (1 <= m < 3)%nat /\ 2 < 0
       end.
Proof.
  apply (attempts_numbered_until_return (H := Demo.schemas)
           (H0 := Demo.three_retries) (H1 := Demo.helpers)
           (H2 := Demo.site) 222 (Demo.worker (Demo.session 0))).
  apply surjective_pairing.
Defined.

(** X6 on the site: item 111, three retries, on a session whose first
    navigation fails. *)
Lemma success_provenance_witness :
  exists (m : nat) (self0 : OzonWorker.t) url w1 w2 payload parsed,
    (m < Z.to_nat 3)%nat
    /\ OzonWorker.attempt_loop (H0 := Demo.three_retries)
         (H1 := Demo.helpers) 111 (map Z.of_nat (seq 0 m))
         (Demo.worker (Demo.session 1))
       = (Ok OzonWorker.Exhausted, self0)
    /\ build_ozon_api_url (Helpers := Demo.helpers) 111 = Ok url
    /\ navigate_to_url (Selenium := Demo.site) url
         (OzonWorker.selenium_manager self0) = (Ok true, w1)
    /\ debug_page_content (Selenium := Demo.site) w1 = (Ok tt, w2)
    /\ wait_for_json_response (Selenium := Demo.site) w2
       = (Ok (Some payload),
          OzonWorker.selenium_manager
            (OzonWorker.parse_single_article (H0 := Demo.three_retries)
               (H1 := Demo.helpers) 111 (Demo.worker (Demo.session 1))).2)
    /\ payload <> ""
    /\ OzonWorker.extract_price_info (H1 := Demo.helpers) payload
       = Some parsed
    /\ Demo.priced 111 = mkArticleResult 111 true (Some parsed) None.
Proof.
  apply (success_comes_from_payload (H := Demo.schemas)
           (H0 := Demo.three_retries) (H1 := Demo.helpers)
           (H2 := Demo.site) 111 (Demo.worker (Demo.session 1))
           (OzonWorker.parse_single_article (H0 := Demo.three_retries)
              (H1 := Demo.helpers) 111 (Demo.worker (Demo.session 1))).2).
  - vm_compute. reflexivity.
  - reflexivity.
Defined.


(** X8 on the site: a worker on items 111 and 222, three retries. *)
Lemma worker_sequence_witness :
  let run :=
    OzonWorker.parse_articles (H := Demo.schemas)
      (H0 := Demo.three_retries) (H1 := Demo.helpers) (H2 := Demo.site)
      [111; 222] (Demo.worker (Demo.session 0)) in
  exists counts,
    length counts = 2%nat
    /\ OzonWorker.attempts_logged run.2
       = OzonWorker.attempts_logged (Demo.worker (Demo.session 0))
         ++ concat (zip_with numbered_attempts [111; 222] counts)
    /\ Forall (fun m => (Nat.min 1 3 <= m <= 3)%nat) counts.
Proof.
  apply (worker_parses_in_sequence (H := Demo.schemas)
           (H0 := Demo.three_retries) (H1 := Demo.helpers)
           (H2 := Demo.site) [111; 222] (Demo.worker (Demo.session 0)) _
           [Demo.priced 111;
            Demo.failed 222 "Failed to extract price info"]).
  vm_compute. reflexivity.
Defined.

(** X9 on the site: a machine where no browser starts, and a manager that
    hands out no driver. *)
Lemma cannot_start_witness :
  OzonParser._parse_worker_group (H := Demo.schemas)
    (H0 := Demo.ten_per_worker) (H1 := Demo.helpers) (H2 := Demo.site)
    Demo.broken_session [111]
  = Raise (mkExn "WebDriverException" "cannot start a browser")
  /\ OzonParser._parse_worker_group (H := Demo.schemas)
       (H0 := Demo.ten_per_worker) (H1 := Demo.helpers)
       (H2 := Demo.driverless_site) (Demo.session 0) [111]
     = Raise (RuntimeError "Worker not initialized").
Proof.
  split.
  - apply (proj1 (worker_that_cannot_start (H := Demo.schemas)
                    (H0 := Demo.ten_per_worker) (H1 := Demo.helpers)
                    (H2 := Demo.site) Demo.broken_session
                    Demo.broken_session [111] eq_refl)
             (mkExn "WebDriverException" "cannot start a browser") eq_refl).
  - apply (proj2 (worker_that_cannot_start (H := Demo.schemas)
                    (H0 := Demo.ten_per_worker) (H1 := Demo.helpers)
                    (H2 := Demo.driverless_site) (Demo.session 0)
                    (Demo.session 0) [111] eq_refl) eq_refl).
Defined.

(** X10 on the site: a manager that cannot close. *)
Lemma close_failure_witness :
  OzonParser._parse_worker_group (H := Demo.schemas)
    (H0 := Demo.ten_per_worker) (H1 := Demo.helpers)
    (H2 := Demo.unclosable_site) (Demo.session 0) [111]
  = Raise (mkExn "WebDriverException" "cannot close the browser")
  /\ OzonParser._parse_with_single_worker (H := Demo.schemas)
       (H0 := Demo.ten_per_worker) (H1 := Demo.helpers)
       (H2 := Demo.unclosable_site) (Demo.session 0) [111]
     = Raise (mkExn "WebDriverException" "cannot close the browser").
Proof.
  apply (close_failure_replaces_outcome (H := Demo.schemas)
           (H0 := Demo.ten_per_worker) (H1 := Demo.helpers)
           (H2 := Demo.unclosable_site) (Demo.session 0) [111]).
  intros w'. reflexivity.
Defined.

(** X11 on the site: the empty input. *)
Lemma empty_input_witness :
  Demo.parse Demo.ten_per_worker Demo.healthy [] []
  = OzonParser._parse_with_single_worker (H := Demo.schemas)
      (H0 := Demo.ten_per_worker) (H1 := Demo.helpers) (H2 := Demo.site)
      (Demo.healthy 0) []
  /\ Demo.parse Demo.ten_per_worker Demo.healthy [] [] = Ok [].
Proof.
  destruct (empty_input_starts_a_worker (H := Demo.schemas)
              (H0 := Demo.ten_per_worker) (H1 := Demo.helpers)
              (H2 := Demo.site) Demo.healthy [])
    as (Hsingle & Hreturns & _).
  { simpl. lia. }
  split; [exact Hsingle|]. apply Hreturns.
  - by exists tt, (Demo.session 0).
  - intros w. reflexivity.
Defined.

(** X12 on the site: the second group's browser cannot start. *)
Lemma batch_exception_witness :
  exists k group,
    OzonParser._parse_worker_group (H := Demo.schemas)
      (H0 := Demo.one_per_worker) (H1 := Demo.helpers) (H2 := Demo.site)
      (Demo.second_broken k) group
    = Raise (mkExn "WebDriverException" "cannot start a browser")
    /\ ((k = 0%nat /\ group = [111; 222])
        \/ exists groups,
            OzonParser._distribute_articles (H0 := Demo.one_per_worker)
              [111; 222] = Ok groups
            /\ groups !! k = Some group).
Proof.
  apply (batch_exception_is_a_workers (H := Demo.schemas)
           (H0 := Demo.one_per_worker) (H1 := Demo.helpers)
           (H2 := Demo.site) Demo.second_broken [0%nat; 1%nat] [111; 222]).
  - simpl. lia.
  - vm_compute. reflexivity.
Defined.

(** X13 on the site: the second group fails, the first does not. *)
Lemma single_failure_witness :
  Demo.parse Demo.one_per_worker Demo.second_broken [1%nat; 0%nat] [111; 222]
  = Raise (mkExn "WebDriverException" "cannot start a browser").
Proof.
  apply (single_failure_is_reported (H := Demo.schemas)
           (H0 := Demo.one_per_worker) (H1 := Demo.helpers)
           (H2 := Demo.site) Demo.second_broken [1%nat; 0%nat] [111; 222]
           [[111]; [222]] 1 [222]).
  - vm_compute. reflexivity.
  - vm_compute. discriminate.
  - simpl. apply perm_swap.
  - reflexivity.
  - vm_compute. reflexivity.
  - intros [|[|j]] other Hj Hother; simpl in Hother; try done.
    injection Hother as <-. vm_compute. reflexivity.
Defined.

(** X14 on the site: two results for item 111, then one for item 222. *)
Lemma last_result_witness :
  let merged :=
    OzonParser._sort_results_by_original_order
      ([Demo.failed 111 "Failed to navigate to URL"]
       ++ Demo.priced 111
          :: [Demo.failed 222 "Failed to extract price info"])
      [111; 222; 111] in
  (forall r', r' ∈ merged -> article r' = 111 -> r' = Demo.priced 111)
  /\ Demo.priced 111 ∈ merged.
Proof.
  destruct (merge_last_result_wins (H := Demo.schemas)
              [Demo.failed 111 "Failed to navigate to URL"]
              [Demo.failed 222 "Failed to extract price info"]
              (Demo.priced 111) [111; 222; 111])
    as (_ & Hwins & Hkept).
  { simpl. intros [=]%list_elem_of_singleton. }
  split; [exact Hwins|]. apply Hkept. simpl. apply elem_of_cons. by left.
Defined.

(** X16 on the site: two distinct identifiers, two groups. *)
Lemma order_free_witness :
  Demo.parse Demo.one_per_worker Demo.healthy [1%nat; 0%nat] [111; 222]
  = Ok [Demo.priced 111; Demo.failed 222 "Failed to extract price info"].
Proof.
  apply (distinct_identifiers_order_free (H := Demo.schemas)
           (H0 := Demo.one_per_worker) (H1 := Demo.helpers)
           (H2 := Demo.site) Demo.healthy [0%nat; 1%nat] [1%nat; 0%nat]
           [111; 222] [[111]; [222]]).
  - vm_compute. reflexivity.
  - apply (bool_decide_unpack _). vm_compute. exact I.
  - reflexivity.
  - simpl. apply perm_swap.
  - vm_compute. reflexivity.
Defined.

(** X17 on the site: the payload of item 111, whose title is found. *)
Lemma found_title_witness :
  exists data widget_states web_price_value parsed found_title,
    json_loads (Helpers := Demo.helpers) "{widgets of 111}" = Ok data
    /\ widget_states_of data = Some widget_states
    /\ web_price_of (H1 := Demo.helpers) widget_states
       = Some web_price_value
    /\ parse_price_data (Helpers := Demo.helpers) web_price_value
       = Ok (Some parsed)
    /\ find_product_title (Helpers := Demo.helpers) widget_states
       = Ok found_title
    /\ price_fields (@mkPriceInfo Demo.schemas 999 (Some "Widget"))
       = price_fields parsed
    /\ title (@mkPriceInfo Demo.schemas 999 (Some "Widget"))
       = (if truthy_str found_title then found_title else title parsed).
Proof.
  apply (found_title_replaces_title (H := Demo.schemas)
           (H1 := Demo.helpers) "{widgets of 111}").
  vm_compute. reflexivity.
Defined.

(** X18 on the site: the payload of item 111 and a title lookup that
    raises. *)
Lemma title_failure_witness :
  OzonWorker.extract_price_info (H := Demo.schemas)
    (H1 := Demo.helpers_without_titles) "{widgets of 111}" = None.
Proof.
  apply (title_lookup_failure_discards_price (H := Demo.schemas)
           (H1 := Demo.helpers_without_titles) "{widgets of 111}"
           (JObj [("widgetStates",
                   JObj [("webPrice-1", JStr "999");
                         ("webProductHeading-1", JStr "Widget")])])
           (JObj [("webPrice-1", JStr "999");
                  ("webProductHeading-1", JStr "Widget")])
           (JStr "999") (@mkPriceInfo Demo.schemas 999 None)
           (mkExn "KeyError" "webProductHeading"));
    reflexivity.
Defined.

(** X19 on the site: browsers that start, a manager that closes. *)
Lemma returns_witness :
  exists out,
    Demo.parse Demo.one_per_worker Demo.healthy [0%nat; 1%nat]
      [111; 222; 333] = Ok out
    /\ (length out <= 3)%nat.
Proof.
  apply (healthy_batch_returns (H := Demo.schemas)
           (H0 := Demo.one_per_worker) (H1 := Demo.helpers)
           (H2 := Demo.site) Demo.healthy [0%nat; 1%nat] [111; 222; 333]).
  - simpl. lia.
  - simpl. lia.
  - intros w. reflexivity.
  - intros k. by exists tt, (Demo.session 0).
Defined.

End MoreRuns.
